(** * RandomStringGeneratorBase: a shallow embedding of [main.cpp]

    The class template [RandomStringGeneratorBase<TChar>] owns a charset
    ([std::basic_string<TChar>]), a seed strategy and a random strategy, and
    fills buffers with symbols drawn from the charset.

    Conventions of the embedding.
    - [int] is a 32-bit two's-complement integer whose increment wraps
      around ([wrap_int]); [size_t] is the 64-bit unsigned type of the LP64
      targets, and the conversion of an [int] to [size_t] made by the
      comparison [i < outSize] is [to_size_t].
    - Everything a [std::function] strategy can read or change (the state of
      [std::rand], a counter captured by a lambda, ...) is the world [W];
      a strategy is a state transformer on [W].  The charset and the output
      buffer are not part of [W].
    - Undefined behaviour (indexing the charset past its terminator, writing
      outside the output buffer) is an explicit outcome, [UB].
    - The loop of [get] is a function with fuel; [get] supplies enough of it
      ([get_terminates]), so [OutOfFuel] is never the outcome of a call.
    - The constructors are overloaded; which one a call runs is decided by
      the type of the charset argument ([construct_from]). *)

From Stdlib Require Import ZArith Lia Ascii String.
From stdpp Require Import base tactics option list numbers.

Local Open Scope Z_scope.

(** ** Machine integers *)

Definition INT_MAX : Z := 2147483647.
Definition INT_MIN : Z := -2147483648.
Definition SIZE_MAX : Z := 18446744073709551615.

(** [i++] on an [int], with two's-complement wrap-around. *)
Definition wrap_int (z : Z) : Z := (z + 2147483648) `mod` 4294967296 - 2147483648.

(** Conversion of an [int] to [size_t] (usual arithmetic conversions). *)
Definition to_size_t (z : Z) : Z := z `mod` 18446744073709551616.

(** [s.size()] *)
Definition size {A} (s : list A) : Z := Z.of_nat (length s).

(** ** Symbol types

    [RandomStringGenerator] is the instantiation at [char],
    [RandomStringGeneratorW] the one at [wchar_t]; a static local variable of
    a member of a class template exists once per instantiation, so the
    instantiation is part of the data. *)

Inductive CharKind : Type := K_char | K_wchar_t | K_char16_t | K_char32_t.

#[export] Instance CharKind_eq_dec : EqDecision CharKind.
Proof. solve_decision. Defined.

Class CharT (TChar : Type) : Type := {
  char_kind : CharKind;
  null : TChar;                         (* TChar{} *)
  char_eq_dec :: EqDecision TChar
}.

#[export] Instance char_CharT : CharT ascii :=
  {| char_kind := K_char; null := zero; char_eq_dec := ascii_dec |}.

#[export] Instance wchar_t_CharT : CharT Z :=
  {| char_kind := K_wchar_t; null := 0; char_eq_dec := Z.eq_dec |}.

(** ** The generator *)

Section Generator.
Context {W : Type} {TChar : Type} `{CharT TChar}.

(** The three data members of the class. *)
Record RandomStringGeneratorBase : Type := mkGenerator {
  _charset : list TChar;            (* std::basic_string<TChar> *)
  _seed : W → W;                    (* std::function<void()> *)
  _rand : Z → W → Z * W             (* std::function<size_t(size_t)> *)
}.

(** *** Process-wide state

    [once_flag k] is the [static std::once_flag flag] of the principal
    constructor of the instantiation at symbol type [k]; [seed_calls] counts
    the executions of [Seed()] (bookkeeping only, nothing reads it). *)
Record Process : Type := mkProcess {
  once_flag : CharKind → bool;
  world : W;
  seed_calls : nat
}.

Definition set_once_flag (k : CharKind) (p : Process) : Process :=
  mkProcess (λ k', if decide (k' = k) then true else once_flag p k')
            (world p) (seed_calls p).

(** [std::call_once(flag, f)] for a callable that returns normally. *)
Definition call_once (k : CharKind) (f : Process → Process) (p : Process) : Process :=
  if once_flag p k then p else set_once_flag k (f p).

(** [void Seed() { _seed(); }] *)
Definition Seed (g : RandomStringGeneratorBase) (p : Process) : Process :=
  mkProcess (once_flag p) (_seed g (world p)) (S (seed_calls p)).

(** *** Constructors

    [SPEEDUP] is the value of the macro
    [SPEEDUP_GENERATOR_BY_DEDICATED_CALL_OF_SEED_RANDOM]; the block guarded by
    [#if !SPEEDUP...] is compiled exactly when it is zero. *)
Section Constructors.
Variable SPEEDUP : Z.

(** Principal constructor, from a [std::basic_string<TChar>]. *)
Definition ctor_string (charset : list TChar) (seed : W → W)
    (rand : Z → W → Z * W) (p : Process) : RandomStringGeneratorBase * Process :=
  let this := mkGenerator charset seed rand in
  (this, if decide (SPEEDUP = 0) then call_once char_kind (Seed this) p else p).

(** [std::basic_string<TChar>(first, last)] over the elements
    [mem[first], ..., mem[last-1]] of an array object [mem]. *)
Definition basic_string_range (mem : list TChar) (first last : nat) : list TChar :=
  take (last - first) (drop first mem).

(** [std::basic_string<TChar>(s)] for a pointer [s] to the first element of
    [mem]: the symbols before the first [TChar{}]; reading past the end of
    the object without meeting one is undefined. *)
Fixpoint basic_string_cstr (mem : list TChar) : option (list TChar) :=
  match mem with
  | [] => None
  | c :: mem' =>
      if decide (c = null) then Some []
      else match basic_string_cstr mem' with
           | Some s => Some (c :: s)
           | None => None
           end
  end.

(** From [TChar const (&charsetArray)[size]]. *)
Definition ctor_array (charsetArray : list TChar) (seed : W → W)
    (rand : Z → W → Z * W) (p : Process) : RandomStringGeneratorBase * Process :=
  let size := length charsetArray in
  ctor_string (basic_string_range charsetArray 0 (0 + size)) seed rand p.

(** From [TChar const *charsetString]; [None] when the read is undefined. *)
Definition ctor_cstr (charsetString : list TChar) (seed : W → W)
    (rand : Z → W → Z * W) (p : Process)
    : option (RandomStringGeneratorBase * Process) :=
  match basic_string_cstr charsetString with
  | Some s => Some (ctor_string s seed rand p)
  | None => None
  end.

(** From a container with random-access iterators. *)
Definition ctor_container (charset : list TChar) (seed : W → W)
    (rand : Z → W → Z * W) (p : Process) : RandomStringGeneratorBase * Process :=
  ctor_string (basic_string_range charset 0 (0 + length charset)) seed rand p.
End Constructors.

(** *** Generation *)

(** [s[pos]] on a [std::basic_string]: the element for [pos < size()], a
    reference to [TChar{}] for [pos == size()], undefined beyond. *)
Definition basic_string_at (s : list TChar) (pos : Z) : option TChar :=
  if decide (0 ≤ pos < size s) then s !! Z.to_nat pos
  else if decide (pos = size s) then Some null
  else None.

(** What a run of [get] did, in order: calls of [_rand] (argument and
    result) and stores [out[i] = c]. *)
Inductive event : Type :=
| EvRand (n idx : Z)
| EvWrite (i : Z) (c : TChar).

Inductive status : Type := Returned | UB | OutOfFuel.

Record run : Type := mkRun {
  r_status : status;
  r_out : list TChar;       (* the buffer [out, out + capacity) afterwards *)
  r_world : W;
  r_i : Z;                  (* the loop counter when the run stopped *)
  r_trace : list event
}.

Definition emit (evs : list event) (r : run) : run :=
  mkRun (r_status r) (r_out r) (r_world r) (r_i r) (evs ++ r_trace r).

(** The loop [for (...; i < outSize; i++) out[i] = _charset[_rand(_charset.size())];]
    entered with counter [i], buffer contents [out] and world [w]. *)
Fixpoint get_loop (fuel : nat) (g : RandomStringGeneratorBase) (outSize : Z)
    (i : Z) (out : list TChar) (w : W) : run :=
  match fuel with
  | O => mkRun OutOfFuel out w i []
  | S fuel' =>
      if decide (to_size_t i < outSize) then
        let n := size (_charset g) in
        let '(idx, w') := _rand g n w in
        match basic_string_at (_charset g) idx with
        | None => mkRun UB out w' i [EvRand n idx]
        | Some c =>
            if decide (0 ≤ i < size out) then
              emit [EvRand n idx; EvWrite i c]
                (get_loop fuel' g outSize (wrap_int (i + 1))
                   (<[Z.to_nat i := c]> out) w')
            else mkRun UB out w' i [EvRand n idx]
        end
      else mkRun Returned out w i []
  end.

(** [void get(TChar *out, size_t outSize)]; [out] is the caller's buffer. *)
Definition get (g : RandomStringGeneratorBase) (out : list TChar) (outSize : Z)
    (w : W) : run :=
  get_loop (S (Z.to_nat outSize)) g outSize 0 out w.

(** [template<typename T> T get(size_t outSize)]: [T result(outSize, {})],
    filled through [result.data()], [result.size()]. *)
Definition get_T (g : RandomStringGeneratorBase) (outSize : Z) (w : W) : run :=
  let result := replicate (Z.to_nat outSize) null in
  get g result (size result) w.

(** Projections of a trace. *)
Definition written (tr : list event) : list TChar :=
  omap (λ e, match e with EvWrite _ c => Some c | _ => None end) tr.

Definition write_indices (tr : list event) : list Z :=
  omap (λ e, match e with EvWrite i _ => Some i | _ => None end) tr.

Definition rand_bounds (tr : list event) : list Z :=
  omap (λ e, match e with EvRand n _ => Some n | _ => None end) tr.

Definition iterations (r : run) : Z := size (write_indices (r_trace r)).
End Generator.

Arguments RandomStringGeneratorBase : clear implicits.
Arguments Process : clear implicits.
Arguments run : clear implicits.
Arguments event : clear implicits.

(** ** Which constructor a call runs

    The charset argument of a constructor call, by the type of the argument
    expression. *)
Inductive CharsetArg (TChar : Type) : Type :=
| ArgConstArray (a : list TChar)    (* lvalue of type TChar const[size]: a const array, a literal *)
| ArgArray (a : list TChar)         (* lvalue of type TChar[size] *)
| ArgPointer (mem : list TChar)     (* TChar const*, to the first element of [mem] *)
| ArgString (s : list TChar)        (* std::basic_string<TChar> *)
| ArgContainer (c : list TChar).    (* another container with random-access iterators *)
Arguments ArgConstArray {TChar} a.
Arguments ArgArray {TChar} a.
Arguments ArgPointer {TChar} mem.
Arguments ArgString {TChar} s.
Arguments ArgContainer {TChar} c.

(** Overload resolution among the four constructors.  For a const array both
    the array constructor (a template, the reference binds directly) and the
    pointer constructor (array-to-pointer conversion only) are exact matches,
    and the one that is not a template is chosen: the array decays to a
    pointer to its first element.  For a non-const array the pointer
    constructor needs a qualification conversion on top and the array
    constructor is chosen.  A [std::basic_string] goes to the principal
    constructor, which is not a template, rather than to the container one. *)
Definition construct_from {W TChar} `{CharT TChar} (SPEEDUP : Z)
    (arg : CharsetArg TChar) (seed : W → W) (rand : Z → W → Z * W)
    (p : Process W) : option (RandomStringGeneratorBase W TChar * Process W) :=
  match arg with
  | ArgConstArray a => ctor_cstr SPEEDUP a seed rand p
  | ArgArray a => Some (ctor_array SPEEDUP a seed rand p)
  | ArgPointer mem => ctor_cstr SPEEDUP mem seed rand p
  | ArgString s => Some (ctor_string SPEEDUP s seed rand p)
  | ArgContainer c => Some (ctor_container SPEEDUP c seed rand p)
  end.

(** The charset of the generator a call constructs, when the call is defined. *)
Definition charset_from {W TChar} `{CharT TChar} (SPEEDUP : Z)
    (arg : CharsetArg TChar) (seed : W → W) (rand : Z → W → Z * W)
    (p : Process W) : option (list TChar) :=
  match construct_from SPEEDUP arg seed rand p with
  | Some (g, _) => Some (_charset g)
  | None => None
  end.

(** ** Sequences of constructions in one process *)

(** One constructor call, at any symbol type.  The array, pointer and
    container constructors delegate to the principal one, which alone touches
    the process state, so a call is recorded by the arguments that reach it. *)
Inductive Construction (W : Type) : Type :=
| Construct {TChar : Type} `{CharT TChar}
    (charset : list TChar) (seed : W → W) (rand : Z → W → Z * W).
Arguments Construct {W TChar _} charset seed rand.

Definition kind_of {W} (c : Construction W) : CharKind :=
  match c with @Construct _ _ H _ _ _ => @char_kind _ H end.

Definition seed_of {W} (c : Construction W) : W → W :=
  match c with Construct _ seed _ => seed end.

Definition construct {W} (SPEEDUP : Z) (c : Construction W) (p : Process W) : Process W :=
  match c with
  | Construct charset seed rand => snd (ctor_string SPEEDUP charset seed rand p)
  end.

Definition construct_all {W} (SPEEDUP : Z) (cs : list (Construction W))
    (p : Process W) : Process W :=
  foldl (λ p c, construct SPEEDUP c p) p cs.

(** [#define SPEEDUP_GENERATOR_BY_DEDICATED_CALL_OF_SEED_RANDOM 0] *)
Definition SPEEDUP_GENERATOR_BY_DEDICATED_CALL_OF_SEED_RANDOM : Z := 0.

(** The process at start-up: statics are zero-initialised. *)
Definition fresh_process {W} (w : W) : Process W := mkProcess (λ _, false) w 0.

(** ** Strategies and generators used in the examples *)

(** A random strategy that always returns index 0. *)
Definition rand_zero {W} : Z → W → Z * W := λ _ w, (0, w).

(** The cycling strategy 0,1,0,1,...: the world is the number of calls so far. *)
Definition rand_cycle : Z → Z → Z * Z := λ _ w, (w `mod` 2, w + 1).

(** A counting seed strategy: the world is the number of calls. *)
Definition seed_count : nat → nat := S.

Definition chars (s : string) : list ascii := list_ascii_of_string s.

Definition gen_ab : RandomStringGeneratorBase Z ascii :=
  mkGenerator (chars "ab") id rand_cycle.

Definition gen_a : RandomStringGeneratorBase unit ascii :=
  mkGenerator (chars "a") id rand_zero.

Definition gen_ab0 : RandomStringGeneratorBase unit ascii :=
  mkGenerator (chars "ab") id rand_zero.

(** The 36 symbols of the charsets of [main]. *)
Definition main_charset : list ascii := chars "0123456789abcdefghijklmnopqrstuvwxyz".

(** [const char charset[] = "0123456789abcdefghijklmnopqrstuvwxyz";] of the
    second block of [main]: 37 elements, the last one the terminator. *)
Definition main_array_literal : CharsetArg ascii := ArgConstArray (main_charset ++ [null]).

(** [const char charset[] = {'0', ..., 'z'};] of the third block of [main]:
    36 elements, no terminator. *)
Definition main_array_chars : CharsetArg ascii := ArgConstArray main_charset.

(** The constructions of [main], in order: five generators over [char], then
    one over [wchar_t] (its charset abbreviated), each with a counting seed. *)
Definition main_constructions : list (Construction nat) :=
  [ Construct (chars "0123456789abcdefghijklmnopqrstuvwxyz") seed_count rand_zero;
    Construct (chars "0123456789abcdefghijklmnopqrstuvwxyz") seed_count rand_zero;
    Construct (chars "0123456789abcdefghijklmnopqrstuvwxyz") seed_count rand_zero;
    Construct (chars "0123456789abcdefghijklmnopqrstuvwxyz") seed_count rand_zero;
    Construct (chars "0123456789abcdefghijklmnopqrstuvwxyz") seed_count rand_zero;
    Construct [48; 49; 1072; 1073; 1103] seed_count rand_zero ].

(** A strategy [rand] answers the bound [n] with an index below [n]. *)
Definition rand_in_range {W} (rand : Z → W → Z * W) (n : Z) : Prop :=
  ∀ w, 0 ≤ fst (rand n w) < n.

(** [R] relates states from which the strategy returns the same indices for ever. *)
Definition same_indices {W1 W2} (R : W1 → W2 → Prop)
    (rand1 : Z → W1 → Z * W1) (rand2 : Z → W2 → Z * W2) : Prop :=
  ∀ n w1 w2, R w1 w2 →
    fst (rand1 n w1) = fst (rand2 n w2) ∧ R (snd (rand1 n w1)) (snd (rand2 n w2)).

(** ** The strategy as a stream, and the default strategy *)

(** The results of [k] successive calls [rand n], and the state they leave. *)
Fixpoint indices {W} (rand : Z → W → Z * W) (n : Z) (k : nat) (w : W) : list Z * W :=
  match k with
  | O => ([], w)
  | S k' =>
      let '(idx, w1) := rand n w in
      let '(l, w2) := indices rand n k' w1 in
      (idx :: l, w2)
  end.

(** The default random strategy [[](size_t range) { return std::rand() % range; }],
    over a model [std_rand] of [std::rand()]; the [int] it returns is
    converted to [size_t] for the division.  The division is undefined for
    [range] = 0; [get] passes [_charset.size()], and the properties of this
    strategy are stated for a non-empty charset. *)
Definition default_rand {W} (std_rand : W → Z * W) : Z → W → Z * W :=
  λ range w, let '(r, w') := std_rand w in (to_size_t r `mod` range, w').

(** A linear congruential [std::rand()] with [RAND_MAX] = 2^31 - 1, for the
    examples: the world is the seed. *)
Definition lcg_rand : Z → Z * Z :=
  λ seed, let next := (1103515245 * seed + 12345) `mod` 2147483648 in (next, next).

Definition gen_empty : RandomStringGeneratorBase unit ascii :=
  mkGenerator [] id rand_zero.

(** A strategy that answers every bound with the bound itself. *)
Definition rand_bound {W} : Z → W → Z * W := λ n w, (n, w).

Definition gen_ab_bound : RandomStringGeneratorBase unit ascii :=
  mkGenerator (chars "ab") id rand_bound.

Definition gen_abc_default : RandomStringGeneratorBase Z ascii :=
  mkGenerator (chars "abc") id (default_rand lcg_rand).

(** * Properties *)

(** ** Machine integers *)

Lemma wrap_int_small z : -2147483648 ≤ z < 2147483648 → wrap_int z = z.
Proof. intros Hz. unfold wrap_int. rewrite Z.mod_small; lia. Qed.

Lemma wrap_int_top : wrap_int 2147483648 = INT_MIN.
Proof. reflexivity. Qed.

Lemma to_size_t_small z : 0 ≤ z ≤ SIZE_MAX → to_size_t z = z.
Proof. intros Hz. unfold to_size_t, SIZE_MAX in *. rewrite Z.mod_small; lia. Qed.

Lemma to_size_t_INT_MIN : to_size_t INT_MIN = 18446744071562067968.
Proof. reflexivity. Qed.

(** The counter after [k] increments, as the comparison sees it. *)
Lemma counter_below k : 0 ≤ k < 2147483648 → to_size_t (wrap_int k) = k.
Proof.
  intros Hk. rewrite wrap_int_small by lia.
  apply to_size_t_small. unfold SIZE_MAX. lia.
Qed.

Lemma counter_top : to_size_t (wrap_int 2147483648) = 18446744071562067968.
Proof. reflexivity. Qed.

(** ** The charset *)

Lemma basic_string_at_in_range {TChar} `{CharT TChar} (s : list TChar) pos :
  0 ≤ pos < size s → ∃ c, basic_string_at s pos = Some c ∧ c ∈ s.
Proof.
  intros Hpos. unfold basic_string_at. rewrite decide_True by done.
  destruct (lookup_lt_is_Some_2 s (Z.to_nat pos)) as [c Hc].
  { unfold size in Hpos. lia. }
  exists c. split; [done|]. by eapply list_elem_of_lookup_2.
Qed.

(** ** The loop *)

Section Loop.
Context {W : Type} {TChar : Type} `{CharT TChar}.
Implicit Types (g : RandomStringGeneratorBase W TChar) (out : list TChar) (w : W).

Lemma written_emit_iter n idx i c (r : run W TChar) :
  written (r_trace (emit [EvRand n idx; EvWrite i c] r)) = c :: written (r_trace r).
Proof. reflexivity. Qed.

Lemma write_indices_emit_iter n idx i c (r : run W TChar) :
  write_indices (r_trace (emit [EvRand n idx; EvWrite i c] r))
  = i :: write_indices (r_trace r).
Proof. reflexivity. Qed.

Lemma size_written_indices (tr : list (event TChar)) :
  size (write_indices tr) = size (written tr).
Proof.
  unfold size. f_equal. induction tr as [|[]]; simpl; congruence.
Qed.

(** A store at the counter extends the written prefix by one symbol. *)
Lemma store_extends_prefix out (k n : nat) c (ws : list TChar) :
  (k < length out)%nat →
  take (S k) (<[k:=c]> out) ++ ws ++ drop (S k + n) (<[k:=c]> out)
  = take k out ++ (c :: ws) ++ drop (k + S n) out.
Proof.
  intros Hk.
  replace (S k + n)%nat with (k + S n)%nat by lia.
  rewrite drop_insert_lt by lia.
  rewrite (take_S_r _ k c) by (by apply list_lookup_insert_eq).
  rewrite take_insert_ge by lia.
  by rewrite <- app_assoc.
Qed.

(** A store happens only while the counter has not wrapped. *)
Lemma store_counter k out :
  0 ≤ k ≤ 2147483648 → 0 ≤ wrap_int k < size out →
  k < 2147483648 ∧ wrap_int k = k.
Proof.
  intros Hk Hi.
  destruct (decide (k = 2147483648)) as [->|Hne].
  - rewrite wrap_int_top in Hi. unfold INT_MIN in Hi. lia.
  - split; [lia|]. apply wrap_int_small. lia.
Qed.

(** Shape of every run, defined or not: after [k] increments the loop
    stores at [k], [k+1], ... and leaves the rest of the buffer alone. *)
Lemma get_loop_shape fuel g outSize k out w :
  0 ≤ k ≤ 2147483648 →
  let r := get_loop fuel g outSize (wrap_int k) out w in
  write_indices (r_trace r) = seqZ k (size (written (r_trace r)))
  ∧ r_out r = take (Z.to_nat k) out ++ written (r_trace r)
              ++ drop (Z.to_nat k + length (written (r_trace r))) out
  ∧ k + size (written (r_trace r)) ≤ 2147483648
  ∧ (k ≤ size out → k + size (written (r_trace r)) ≤ size out).
Proof.
  revert k out w. induction fuel as [|fuel IH]; intros k out w Hk; simpl.
  - rewrite Nat.add_0_r, take_drop. unfold size; simpl.
    split; [reflexivity|split; [reflexivity|lia]].
  - assert (Hstop : ∀ st w' i tr, tr = [] ∨ (∃ n idx, tr = [EvRand n idx]) →
      let r := mkRun st out w' i tr in
      write_indices (r_trace r) = seqZ k (size (written (r_trace r)))
      ∧ r_out r = take (Z.to_nat k) out ++ written (r_trace r)
                  ++ drop (Z.to_nat k + length (written (r_trace r))) out
      ∧ k + size (written (r_trace r)) ≤ 2147483648
      ∧ (k ≤ size out → k + size (written (r_trace r)) ≤ size out)).
    { intros st w' i tr [->|(n & idx & ->)]; simpl;
        rewrite Nat.add_0_r, take_drop; unfold size; simpl;
        (split; [reflexivity|split; [reflexivity|lia]]). }
    case_decide as Hcond; [|apply Hstop; by left].
    destruct (_rand g (size (_charset g)) w) as [idx w'].
    destruct (basic_string_at (_charset g) idx) as [c|]; [|apply Hstop; eauto].
    case_decide as Hi; [|apply Hstop; eauto].
    destruct (store_counter k out Hk Hi) as [Hlt Hwrap].
    rewrite Hwrap in *.
    specialize (IH (k + 1) (<[Z.to_nat k:=c]> out) w' ltac:(lia)).
    destruct IH as (Hidx & Hout & Hmax & Hlen).
    rewrite written_emit_iter, write_indices_emit_iter.
    set (r := get_loop fuel g outSize (wrap_int (k + 1)) _ w') in *.
    change (r_out (emit _ r)) with (r_out r).
    assert (Hsz : size (c :: written (r_trace r)) = size (written (r_trace r)) + 1).
    { unfold size. simpl. lia. }
    assert (Hlen' : size (<[Z.to_nat k:=c]> out) = size out).
    { unfold size. by rewrite length_insert. }
    rewrite Hsz. repeat split.
    + rewrite (seqZ_cons k) by (unfold size; lia).
      rewrite Hidx. do 2 f_equal; lia.
    + rewrite Hout. replace (Z.to_nat (k + 1)) with (S (Z.to_nat k)) by lia.
      rewrite store_extends_prefix by (unfold size in Hi; lia).
      simpl. reflexivity.
    + lia.
    + intros _. rewrite Hlen' in Hlen. lia.
Qed.

(** Every call of the random strategy passes the size of the charset. *)
Lemma get_loop_rand_bounds fuel g outSize i out w :
  Forall (λ n, n = size (_charset g))
         (rand_bounds (r_trace (get_loop fuel g outSize i out w))).
Proof.
  revert i out w. induction fuel as [|fuel IH]; intros i out w; simpl.
  - constructor.
  - case_decide; [|constructor].
    destruct (_rand g (size (_charset g)) w) as [idx w'].
    destruct (basic_string_at (_charset g) idx) as [c|];
      [|by repeat constructor].
    case_decide; [|by repeat constructor].
    simpl. constructor; [done|]. apply IH.
Qed.

(** Every stored symbol is the charset read at an index the strategy
    returned for the bound [_charset.size()]. *)
Lemma get_loop_written_from_rand fuel g outSize i out w :
  Forall (λ c, ∃ w0, basic_string_at (_charset g)
                       (fst (_rand g (size (_charset g)) w0)) = Some c)
         (written (r_trace (get_loop fuel g outSize i out w))).
Proof.
  revert i out w. induction fuel as [|fuel IH]; intros i out w; simpl.
  - constructor.
  - case_decide; [|constructor].
    destruct (_rand g (size (_charset g)) w) as [idx w'] eqn:Hrand.
    destruct (basic_string_at (_charset g) idx) as [c|] eqn:Hc;
      [|by repeat constructor].
    case_decide; [|by repeat constructor].
    simpl. constructor; [|apply IH].
    exists w. by rewrite Hrand.
Qed.

(** The fuel of [get] is enough: the loop stops by itself. *)
Lemma get_loop_fuel fuel g outSize k out w :
  0 ≤ k ≤ 2147483648 →
  (Z.to_nat (outSize - k) < fuel)%nat →
  r_status (get_loop fuel g outSize (wrap_int k) out w) ≠ OutOfFuel.
Proof.
  revert k out w. induction fuel as [|fuel IH]; intros k out w Hk Hfuel; [lia|].
  simpl. case_decide as Hcond; [|done].
  destruct (_rand g (size (_charset g)) w) as [idx w'].
  destruct (basic_string_at (_charset g) idx) as [c|]; [|done].
  case_decide as Hi; [|done].
  destruct (store_counter k out Hk Hi) as [Hlt Hwrap].
  rewrite Hwrap in *.
  rewrite to_size_t_small in Hcond by (unfold SIZE_MAX; lia).
  change (r_status (emit _ ?r)) with (r_status r).
  apply IH; lia.
Qed.

(** Number of iterations the loop performs for [outSize]: it stops when the
    counter reaches [outSize] or wraps; a wrapped counter ends the loop unless
    [outSize] is above 2^64 - 2^31, where the next store is at [out[INT_MIN]]. *)
Lemma get_loop_runs fuel g outSize k out w :
  let m := Z.min outSize 2147483648 in
  rand_in_range (_rand g) (size (_charset g)) →
  0 ≤ k ≤ m → m ≤ size out →
  (Z.to_nat (m - k) < fuel)%nat →
  let r := get_loop fuel g outSize (wrap_int k) out w in
  r_status r = (if decide (outSize ≤ 18446744071562067968) then Returned else UB)
  ∧ size (written (r_trace r)) = m - k ∧ r_i r = wrap_int m.
Proof.
  intros m Hrand. revert k out w.
  induction fuel as [|fuel IH]; intros k out w Hk Hout Hfuel; [lia|].
  simpl. destruct (decide (k = m)) as [->|Hne].
  - destruct (decide (outSize ≤ 18446744071562067968)) as [Hsize|Hsize].
    + rewrite decide_False; [simpl; unfold size; simpl; split_and!; [done|lia|done]|].
      destruct (decide (m = 2147483648)) as [Hm|Hm].
      * rewrite Hm, counter_top. lia.
      * rewrite counter_below by lia. lia.
    + assert (Hm : m = 2147483648) by lia. rewrite Hm.
      rewrite counter_top, decide_True by lia.
      pose proof (Hrand w) as Hidx.
      destruct (_rand g (size (_charset g)) w) as [idx w']. simpl in Hidx.
      destruct (basic_string_at_in_range _ _ Hidx) as (c & -> & _).
      rewrite wrap_int_top, decide_False by (unfold INT_MIN; lia).
      simpl. unfold size. simpl. split_and!; [done|lia|done].
  - rewrite counter_below by lia. rewrite decide_True by lia.
    rewrite wrap_int_small by lia.
    pose proof (Hrand w) as Hidx.
    destruct (_rand g (size (_charset g)) w) as [idx w']. simpl in Hidx.
    destruct (basic_string_at_in_range _ _ Hidx) as (c & -> & _).
    rewrite decide_True by lia.
    rewrite written_emit_iter.
    change (r_status (emit _ ?r)) with (r_status r).
    change (r_i (emit _ ?r)) with (r_i r).
    destruct (IH (k + 1) (<[Z.to_nat k:=c]> out) w') as (Hst & Hn & Hi);
      [lia|unfold size in *; rewrite length_insert; lia|lia|].
    split_and!; [done| |done].
    unfold size in *. simpl. lia.
Qed.

(** The run does not depend on what the buffer held, nor on the state of
    the strategy beyond the indices it will return. *)
Lemma get_loop_same_indices {W'} (R : W → W' → Prop)
    g (g' : RandomStringGeneratorBase W' TChar) fuel outSize i out out' w
    (v : W') :
  _charset g = _charset g' →
  same_indices R (_rand g) (_rand g') →
  length out = length out' → R w v →
  let r := get_loop fuel g outSize i out w in
  let r' := get_loop fuel g' outSize i out' v in
  r_status r = r_status r' ∧ r_trace r = r_trace r' ∧ r_i r = r_i r'
  ∧ R (r_world r) (r_world r').
Proof.
  intros Hcs HR. revert i out out' w v.
  induction fuel as [|fuel IH]; intros i out out' w v Hlen Hw; simpl; [done|].
  case_decide; [|done].
  rewrite <- Hcs.
  destruct (HR (size (_charset g)) w v Hw) as [Hidx Hw'].
  destruct (_rand g (size (_charset g)) w) as [idx w1].
  destruct (_rand g' (size (_charset g)) v) as [idx' v1].
  simpl in Hidx, Hw'. subst idx'.
  destruct (basic_string_at (_charset g) idx) as [c|]; [|done].
  unfold size. rewrite <- Hlen.
  case_decide; [|done].
  destruct (IH (wrap_int (i + 1)) (<[Z.to_nat i:=c]> out) (<[Z.to_nat i:=c]> out')
               w1 v1) as (Hst & Htr & Hi & Hwf).
  { by rewrite !length_insert. }
  { done. }
  simpl. rewrite Htr. done.
Qed.
End Loop.

(** ** [get] and [get<T>] *)

Section Get.
Context {W : Type} {TChar : Type} `{CharT TChar}.
Implicit Types (g : RandomStringGeneratorBase W TChar) (out : list TChar) (w : W).

Lemma size_replicate (n : Z) (x : TChar) : 0 ≤ n → size (replicate (Z.to_nat n) x) = n.
Proof. intros Hn. unfold size. rewrite length_replicate. lia. Qed.

Lemma get_T_unfold g outSize w :
  0 ≤ outSize →
  get_T g outSize w = get g (replicate (Z.to_nat outSize) null) outSize w.
Proof. intros Hn. unfold get_T. by rewrite size_replicate. Qed.

(** [get] returns or is undefined; it never runs out of fuel. *)
Lemma get_terminates g out outSize w : r_status (get g out outSize w) ≠ OutOfFuel.
Proof.
  pose proof (get_loop_fuel (S (Z.to_nat outSize)) g outSize 0 out w) as Hfuel.
  change (wrap_int 0) with 0 in Hfuel. apply Hfuel; lia.
Qed.

Lemma get_shape g out outSize w :
  let r := get g out outSize w in
  write_indices (r_trace r) = seqZ 0 (iterations r)
  ∧ r_out r = written (r_trace r) ++ drop (length (written (r_trace r))) out
  ∧ iterations r ≤ 2147483648
  ∧ iterations r ≤ size out.
Proof.
  unfold get, iterations. rewrite size_written_indices.
  pose proof (get_loop_shape (S (Z.to_nat outSize)) g outSize 0 out w) as Hshape.
  change (wrap_int 0) with 0 in Hshape.
  destruct Hshape as (Hidx & Hout & Hmax & Hlen); [lia|].
  split_and!; [done|done|lia|].
  rewrite <- (Z.add_0_l (size (written _))). apply Hlen. unfold size. lia.
Qed.

Lemma get_length g out outSize w : length (r_out (get g out outSize w)) = length out.
Proof.
  destruct (get_shape g out outSize w) as (_ & -> & _ & Hlen).
  unfold iterations in Hlen. rewrite size_written_indices in Hlen.
  unfold size in Hlen. rewrite length_app, length_drop. lia.
Qed.

Lemma get_runs g out outSize w :
  rand_in_range (_rand g) (size (_charset g)) →
  0 ≤ outSize → outSize ≤ size out →
  let r := get g out outSize w in
  r_status r = (if decide (outSize ≤ 18446744071562067968) then Returned else UB)
  ∧ iterations r = Z.min outSize 2147483648
  ∧ r_i r = wrap_int (Z.min outSize 2147483648).
Proof.
  intros Hrand HL Hout. unfold get, iterations. rewrite size_written_indices.
  pose proof (get_loop_runs (S (Z.to_nat outSize)) g outSize 0 out w Hrand) as Hruns.
  change (wrap_int 0) with 0 in Hruns.
  destruct Hruns as (Hst & Hn & Hi); [lia..|].
  split_and!; [done|lia|done].
Qed.

(** Two runs with the same bound, on buffers of one length, from states
    that yield the same indices. *)
Lemma get_same_indices (R : W → W → Prop) g out out' outSize w w2 :
  same_indices R (_rand g) (_rand g) → length out = length out' → R w w2 →
  r_status (get g out outSize w) = r_status (get g out' outSize w2)
  ∧ r_trace (get g out outSize w) = r_trace (get g out' outSize w2)
  ∧ R (r_world (get g out outSize w)) (r_world (get g out' outSize w2)).
Proof.
  intros HR Hlen Hw. unfold get.
  destruct (get_loop_same_indices R g g (S (Z.to_nat outSize)) outSize 0 out out'
              w w2 eq_refl HR Hlen Hw) as (? & ? & ? & ?).
  done.
Qed.
End Get.

(** ** Length and membership of the output *)

Section Output.
Context {W : Type} {TChar : Type} `{CharT TChar}.
Implicit Types (g : RandomStringGeneratorBase W TChar) (out : list TChar) (w : W).

(** Symbols stored under an in-range strategy come from the charset. *)
Lemma get_written_in_charset g out outSize w :
  rand_in_range (_rand g) (size (_charset g)) →
  Forall (λ c, c ∈ _charset g) (written (r_trace (get g out outSize w))).
Proof.
  intros Hrand. unfold get.
  eapply Forall_impl; [|apply get_loop_written_from_rand].
  intros c [w0 Hc]. simpl in Hc.
  destruct (basic_string_at_in_range _ _ (Hrand w0)) as (c' & Hc' & Hin).
  congruence.
Qed.

(** Up to 2^31 requested symbols the buffer form stores exactly [outSize]
    symbols of the charset, at [out[0]], ..., [out[outSize-1]]. *)
Lemma get_exact_length g out outSize w :
  rand_in_range (_rand g) (size (_charset g)) →
  0 ≤ outSize ≤ 2147483648 → outSize ≤ size out →
  let r := get g out outSize w in
  r_status r = Returned
  ∧ iterations r = outSize
  ∧ write_indices (r_trace r) = seqZ 0 outSize
  ∧ Forall (λ c, c ∈ _charset g) (written (r_trace r))
  ∧ r_out r = written (r_trace r) ++ drop (Z.to_nat outSize) out.
Proof.
  intros Hrand HL Hout r.
  destruct (get_runs g out outSize w Hrand) as (Hst & Hn & _); [lia..|].
  destruct (get_shape g out outSize w) as (Hidx & Hshape & _).
  fold r in Hst, Hn, Hidx, Hshape.
  rewrite decide_True in Hst by lia. rewrite Z.min_l in Hn by lia.
  split_and!; [done|done|by rewrite Hidx, Hn|by apply get_written_in_charset|].
  rewrite Hshape. do 2 f_equal.
  unfold iterations in Hn. rewrite size_written_indices in Hn. unfold size in Hn. lia.
Qed.

(** The container form, up to 2^31 requested symbols. *)
Lemma get_T_exact_length g outSize w :
  rand_in_range (_rand g) (size (_charset g)) →
  0 ≤ outSize ≤ 2147483648 →
  let r := get_T g outSize w in
  r_status r = Returned
  ∧ size (r_out r) = outSize
  ∧ r_out r = written (r_trace r)
  ∧ Forall (λ c, c ∈ _charset g) (r_out r).
Proof.
  intros Hrand HL. rewrite get_T_unfold by lia. simpl.
  destruct (get_exact_length g (replicate (Z.to_nat outSize) null) outSize w Hrand)
    as (Hst & Hn & _ & Hin & Hout); [lia|by rewrite size_replicate by lia|].
  rewrite drop_ge, app_nil_r in Hout by (rewrite length_replicate; lia).
  split_and!; [done| |done|by rewrite Hout].
  unfold size. rewrite get_length, length_replicate. lia.
Qed.

(** Beyond 2^31 requested symbols the counter has wrapped to [INT_MIN],
    which converts to a [size_t] above [outSize]: the loop stops after 2^31
    stores and the rest of the buffer keeps what it held. *)
Lemma get_beyond_int g out outSize w :
  rand_in_range (_rand g) (size (_charset g)) →
  2147483648 < outSize ≤ 18446744071562067968 → outSize ≤ size out →
  let r := get g out outSize w in
  r_status r = Returned
  ∧ iterations r = 2147483648
  ∧ r_i r = INT_MIN
  ∧ ∀ j, 2147483648 ≤ j → r_out r !! Z.to_nat j = out !! Z.to_nat j.
Proof.
  intros Hrand HL Hout r.
  destruct (get_runs g out outSize w Hrand) as (Hst & Hn & Hi); [lia..|].
  destruct (get_shape g out outSize w) as (_ & Hshape & _).
  fold r in Hst, Hn, Hi, Hshape.
  rewrite decide_True in Hst by lia. rewrite Z.min_r in Hn, Hi by lia.
  split_and!; [done|done|done|].
  intros j Hj. rewrite Hshape.
  unfold iterations in Hn. rewrite size_written_indices in Hn. unfold size in Hn.
  rewrite lookup_app_r by lia. rewrite lookup_drop. f_equal. lia.
Qed.
End Output.

(** ** The generation contract *)

Section Contract.
Context {W : Type} {TChar : Type} `{CharT TChar}.
Implicit Types (g : RandomStringGeneratorBase W TChar) (out : list TChar) (w : W).

(** C7: for every length [outSize] the container form is the buffer form run
    on a fresh container of [outSize] default symbols; against a caller's
    buffer of that length under the same strategy state it makes the same
    calls and the same stores, every stored position holds the same symbol,
    and the two results are equal whenever all [outSize] positions are
    stored. *)
Theorem get_T_delegates_to_get g out outSize w :
  0 ≤ outSize → length out = Z.to_nat outSize →
  get_T g outSize w = get g (replicate (Z.to_nat outSize) null) outSize w
  ∧ size (r_out (get_T g outSize w)) = outSize
  ∧ r_status (get_T g outSize w) = r_status (get g out outSize w)
  ∧ r_trace (get_T g outSize w) = r_trace (get g out outSize w)
  ∧ r_world (get_T g outSize w) = r_world (get g out outSize w)
  ∧ Forall (λ j, r_out (get_T g outSize w) !! Z.to_nat j
                 = r_out (get g out outSize w) !! Z.to_nat j)
           (write_indices (r_trace (get g out outSize w)))
  ∧ (iterations (get g out outSize w) = outSize →
     r_out (get_T g outSize w) = r_out (get g out outSize w)).
Proof.
  intros HL Hlen. rewrite get_T_unfold by done.
  set (fresh := replicate (Z.to_nat outSize) null).
  assert (Hfresh : length fresh = length out).
  { unfold fresh. by rewrite length_replicate. }
  destruct (get_same_indices eq g fresh out outSize w w) as (Hst & Htr & Hw);
    [by intros n w1 w2 ->|done|done|].
  destruct (get_shape g fresh outSize w) as (_ & Hf & _ & _).
  destruct (get_shape g out outSize w) as (Hidx & Ho & _ & Hcap).
  rewrite Htr in Hf.
  set (ws := written (r_trace (get g out outSize w))) in *.
  assert (Hn : iterations (get g out outSize w) = size ws).
  { unfold iterations. by rewrite size_written_indices. }
  split_and!; [done| |done|done|done| |].
  - unfold size. rewrite get_length, Hfresh. lia.
  - rewrite Hidx, Hn. apply Forall_forall. intros j Hj.
    apply list_elem_of_In, elem_of_seqZ in Hj. unfold size in Hj.
    rewrite Hf, Ho. rewrite !lookup_app_l by lia. done.
  - intros Hall. rewrite Hf, Ho. f_equal.
    rewrite Hn in Hall. unfold size in Hall.
    rewrite !drop_ge by lia. done.
Qed.

(** C8: during every generation call on a generator with a non-empty
    charset, each call of the random strategy passes the charset's length,
    which is positive, and no other bound. *)
Theorem rand_called_with_charset_size g out outSize w :
  _charset g ≠ [] →
  Forall (λ n, n = size (_charset g) ∧ 0 < n)
         (rand_bounds (r_trace (get g out outSize w)))
  ∧ Forall (λ n, n = size (_charset g) ∧ 0 < n)
           (rand_bounds (r_trace (get_T g outSize w))).
Proof.
  intros Hne.
  assert (Hpos : 0 < size (_charset g)).
  { unfold size. destruct (_charset g); [done|simpl; lia]. }
  split; (eapply Forall_impl; [|apply get_loop_rand_bounds]);
    intros n ->; done.
Qed.

(** C5 (amended): two calls with the same length give identical output when
    the second starts from a state of the random strategy that yields the
    same indices as the state the first started from (a stateless strategy,
    or a fixed index sequence taken up at the same position): for the
    container form, and for the buffer form called again on the buffer the
    first call filled. *)
Theorem get_twice_identical (R : W → W → Prop) g out outSize w w2 :
  same_indices R (_rand g) (_rand g) → R w w2 →
  (r_status (get_T g outSize w2) = r_status (get_T g outSize w)
   ∧ r_out (get_T g outSize w2) = r_out (get_T g outSize w))
  ∧ (r_status (get g (r_out (get g out outSize w)) outSize w2)
     = r_status (get g out outSize w)
     ∧ r_out (get g (r_out (get g out outSize w)) outSize w2)
       = r_out (get g out outSize w)).
Proof.
  intros HR Hw.
  assert (Hgen : ∀ out0,
    r_status (get g (r_out (get g out0 outSize w)) outSize w2)
    = r_status (get g out0 outSize w)
    ∧ r_out (get g (r_out (get g out0 outSize w)) outSize w2)
      = r_out (get g out0 outSize w)).
  { intros out0.
    destruct (get_same_indices R g out0 (r_out (get g out0 outSize w)) outSize w w2)
      as (Hst & Htr & _); [done|by rewrite get_length|done|].
    split; [done|].
    destruct (get_shape g (r_out (get g out0 outSize w)) outSize w2)
      as (_ & -> & _).
    rewrite <- Htr.
    destruct (get_shape g out0 outSize w) as (_ & Ho & _).
    rewrite Ho. f_equal.
    by rewrite drop_app_length. }
  split; [|apply Hgen].
  unfold get_T.
  set (fresh := replicate (Z.to_nat outSize) null).
  destruct (get_same_indices R g fresh fresh (size fresh) w w2)
    as (Hst & Htr & _); [done..|].
  split; [done|].
  destruct (get_shape g fresh (size fresh) w2) as (_ & -> & _).
  destruct (get_shape g fresh (size fresh) w) as (_ & -> & _).
  by rewrite Htr.
Qed.
End Contract.

(** ** The [int] loop counter *)

Section Counter.
Context {W : Type} {TChar : Type} `{CharT TChar}.
Implicit Types (g : RandomStringGeneratorBase W TChar) (out : list TChar) (w : W).

(** C10 (amended): with the [int] counter wrapping modulo 2^32 and a 64-bit
    [size_t], an in-range strategy and a buffer of at least [outSize]
    symbols, the loop performs [min outSize 2^31] iterations and stores
    [out[0]], [out[1]], ... once each, in order.  The counter wraps exactly
    when [outSize] exceeds [INT_MAX], but the number of iterations equals
    [outSize] up to and including [outSize] = 2^31, and differs from it
    beyond.  The wrapped counter converts to 2^64 - 2^31: the loop returns
    unless [outSize] is larger still, where its next store, at
    [out[INT_MIN]], is undefined. *)
Theorem get_iterations_int_counter g out outSize w :
  rand_in_range (_rand g) (size (_charset g)) →
  0 ≤ outSize → outSize ≤ size out →
  r_status (get g out outSize w)
  = (if decide (outSize ≤ 18446744071562067968) then Returned else UB)
  ∧ iterations (get g out outSize w) = Z.min outSize 2147483648
  ∧ write_indices (r_trace (get g out outSize w))
    = seqZ 0 (Z.min outSize 2147483648)
  ∧ r_i (get g out outSize w)
    = (if decide (outSize ≤ INT_MAX) then outSize else INT_MIN)
  ∧ (iterations (get g out outSize w) = outSize ↔ outSize ≤ 2147483648).
Proof.
  intros Hrand HL Hout.
  destruct (get_runs g out outSize w Hrand) as (Hst & Hn & Hi); [lia..|].
  destruct (get_shape g out outSize w) as (Hidx & _).
  split_and!; [done|done|by rewrite Hidx, Hn| |rewrite Hn; lia].
  clear Hst. rewrite Hi. unfold INT_MAX. case_decide.
  - rewrite Z.min_l by lia. apply wrap_int_small. lia.
  - rewrite Z.min_r by lia. apply wrap_int_top.
Qed.

(** With a strategy that always returns index 0, up to 2^31 requested
    symbols the output is the first symbol of the charset throughout. *)
Lemma get_rand_zero_first_symbol g c0 cs out outSize w :
  _charset g = c0 :: cs → (∀ n w0, fst (_rand g n w0) = 0) →
  0 ≤ outSize ≤ 2147483648 → outSize ≤ size out →
  r_out (get g out outSize w)
  = replicate (Z.to_nat outSize) c0 ++ drop (Z.to_nat outSize) out
  ∧ r_out (get_T g outSize w) = replicate (Z.to_nat outSize) c0.
Proof.
  intros Hcs Hzero HL Hout.
  assert (Hrand : rand_in_range (_rand g) (size (_charset g))).
  { intros w0. rewrite Hzero, Hcs. unfold size. simpl. lia. }
  assert (Hall : ∀ out0, outSize ≤ size out0 →
    r_out (get g out0 outSize w)
    = replicate (Z.to_nat outSize) c0 ++ drop (Z.to_nat outSize) out0).
  { intros out0 Hout0.
    destruct (get_exact_length g out0 outSize w Hrand) as (_ & Hn & _ & _ & ->);
      [lia..|].
    f_equal.
    unfold iterations in Hn. rewrite size_written_indices in Hn. unfold size in Hn.
    replace (Z.to_nat outSize)
      with (length (written (r_trace (get g out0 outSize w)))) by lia.
    symmetry. apply replicate_as_Forall_2; [done|].
    eapply Forall_impl; [|apply get_loop_written_from_rand].
    intros c [w0 Hc]. simpl in Hc. rewrite Hzero, Hcs in Hc.
    unfold basic_string_at in Hc. rewrite decide_True in Hc.
    - simpl in Hc. congruence.
    - unfold size. simpl. lia. }
  split; [by apply Hall|].
  rewrite get_T_unfold by lia. rewrite Hall by (rewrite size_replicate; lia).
  rewrite drop_ge by (rewrite length_replicate; lia).
  by rewrite app_nil_r.
Qed.
End Counter.

(** C1: at [outSize] = 2^31 + 1, on a buffer of that many symbols, the buffer
    form returns after 2^31 stores and leaves the last symbol of the buffer
    as it was; the last symbol of what the container form returns is the
    default symbol, which the charset does not contain. *)
Theorem get_short_beyond_int_range :
  r_status (get gen_a (replicate (Z.to_nat 2147483649) "x"%char) 2147483649 ())
  = Returned
  ∧ iterations (get gen_a (replicate (Z.to_nat 2147483649) "x"%char) 2147483649 ())
    = 2147483648
  ∧ r_out (get gen_a (replicate (Z.to_nat 2147483649) "x"%char) 2147483649 ())
      !! Z.to_nat 2147483648 = Some "x"%char
  ∧ size (r_out (get_T gen_a 2147483649 ())) = 2147483649
  ∧ r_out (get_T gen_a 2147483649 ()) !! Z.to_nat 2147483648 = Some null
  ∧ null ∉ _charset gen_a.
Proof.
  assert (Hrand : rand_in_range (_rand gen_a) (size (_charset gen_a))).
  { intros []. unfold size. simpl. lia. }
  destruct (get_beyond_int gen_a (replicate (Z.to_nat 2147483649) "x"%char)
              2147483649 () Hrand) as (Hst & Hn & _ & Hrest);
    [lia|rewrite size_replicate; lia|].
  destruct (get_beyond_int gen_a (replicate (Z.to_nat 2147483649) null)
              2147483649 () Hrand) as (_ & _ & _ & Hrest');
    [lia|rewrite size_replicate; lia|].
  split_and!; [done|done| | | |].
  - rewrite Hrest by lia. apply lookup_replicate_2. lia.
  - unfold size. unfold get_T. rewrite get_length, length_replicate. lia.
  - rewrite get_T_unfold by lia. rewrite Hrest' by lia.
    apply lookup_replicate_2. lia.
  - intros Hin. apply list_elem_of_In in Hin. destruct Hin as [Heq|[]]. discriminate Heq.
Qed.

(** C6: at [outSize] = 2^31 + 1 a generator whose strategy always
    returns index 0 stores the first symbol of its charset 2^31 times only;
    the container it returns ends with the default symbol and is not the
    first symbol repeated [outSize] times. *)
Theorem get_rand_zero_beyond_int_range :
  iterations (get gen_ab0 (replicate (Z.to_nat 2147483649) "x"%char) 2147483649 ())
  = 2147483648
  ∧ r_out (get_T gen_ab0 2147483649 ()) !! Z.to_nat 2147483648 = Some null
  ∧ r_out (get_T gen_ab0 2147483649 ()) ≠ replicate (Z.to_nat 2147483649) "a"%char.
Proof.
  assert (Hrand : rand_in_range (_rand gen_ab0) (size (_charset gen_ab0))).
  { intros []. unfold size. simpl. lia. }
  destruct (get_beyond_int gen_ab0 (replicate (Z.to_nat 2147483649) "x"%char)
              2147483649 () Hrand) as (_ & Hn & _);
    [lia|rewrite size_replicate; lia|].
  destruct (get_beyond_int gen_ab0 (replicate (Z.to_nat 2147483649) null)
              2147483649 () Hrand) as (_ & _ & _ & Hrest);
    [lia|rewrite size_replicate; lia|].
  assert (Hlast : r_out (get_T gen_ab0 2147483649 ()) !! Z.to_nat 2147483648
                  = Some null).
  { rewrite get_T_unfold by lia. rewrite Hrest by lia.
    apply lookup_replicate_2. lia. }
  split_and!; [done|done|].
  intros Heq. rewrite Heq in Hlast.
  rewrite lookup_replicate_2 in Hlast by lia. discriminate Hlast.
Qed.

(** C9: charset "ab", the cycling strategy 0,1,0,1,..., length 4: the output
    is "abab", from the container form and from the buffer form alike. *)
Theorem get_ab_cycle_4 :
  r_status (get_T gen_ab 4 0) = Returned
  ∧ r_out (get_T gen_ab 4 0) = chars "abab"
  ∧ r_out (get gen_ab (chars "????") 4 0) = chars "abab".
Proof. split_and!; reflexivity. Qed.

(** C5, as stated, fails: with the cycling strategy 0,1,0,1,... two calls with
    length 1 on one generator return "a" and then "b". *)
Lemma get_twice_differs_cycle :
  r_out (get_T gen_ab 1 0) = chars "a"
  ∧ r_out (get_T gen_ab 1 (r_world (get_T gen_ab 1 0))) = chars "b"
  ∧ r_out (get_T gen_ab 1 (r_world (get_T gen_ab 1 0))) ≠ r_out (get_T gen_ab 1 0).
Proof. split_and!; [reflexivity|reflexivity|discriminate]. Qed.

(** The cycling strategy resumed after an even number of calls. *)
Lemma get_twice_identical_witness :
  same_indices (λ a b : Z, a `mod` 2 = b `mod` 2) (_rand gen_ab) (_rand gen_ab)
  ∧ 0 `mod` 2 = 4 `mod` 2
  ∧ r_out (get_T gen_ab 4 4) = r_out (get_T gen_ab 4 0)
  ∧ r_out (get gen_ab (r_out (get gen_ab (chars "????") 4 0)) 4 4)
    = r_out (get gen_ab (chars "????") 4 0).
Proof.
  assert (Hcycle : same_indices (λ a b : Z, a `mod` 2 = b `mod` 2)
                     (_rand gen_ab) (_rand gen_ab)).
  { intros n a b Hab. simpl. split; [done|].
    rewrite (Z.add_mod a), (Z.add_mod b), Hab by lia. done. }
  destruct (get_twice_identical (λ a b : Z, a `mod` 2 = b `mod` 2) gen_ab
              (chars "????") 4 0 4 Hcycle eq_refl) as [[_ Ht] [_ Hb]].
  split_and!; [exact Hcycle|reflexivity|exact Ht|exact Hb].
Defined.

Lemma get_T_delegates_to_get_witness :
  0 ≤ 3 ∧ length (chars "xyz") = Z.to_nat 3
  ∧ r_trace (get_T gen_ab 3 0) = r_trace (get gen_ab (chars "xyz") 3 0)
  ∧ r_out (get_T gen_ab 3 0) = r_out (get gen_ab (chars "xyz") 3 0).
Proof.
  destruct (get_T_delegates_to_get gen_ab (chars "xyz") 3 0)
    as (_ & _ & _ & Htr & _ & _ & Hall); [lia|reflexivity|].
  split_and!; [lia|reflexivity|exact Htr|].
  apply Hall. reflexivity.
Defined.

Lemma rand_called_with_charset_size_witness :
  _charset gen_ab ≠ []
  ∧ Forall (λ n, n = 2 ∧ 0 < n) (rand_bounds (r_trace (get_T gen_ab 4 0))).
Proof.
  assert (Hne : _charset gen_ab ≠ []) by discriminate.
  split; [exact Hne|].
  apply (rand_called_with_charset_size gen_ab (chars "????") 4 0 Hne).
Defined.

(** C10, as stated, fails at [outSize] = 2^31, which is greater than
    [INT_MAX]: the counter wraps on its last increment, and the loop has
    performed exactly [outSize] iterations, one store per position. *)
Lemma get_exact_at_2_31 :
  INT_MAX < 2147483648
  ∧ r_i (get gen_a (replicate (Z.to_nat 2147483648) "x"%char) 2147483648 ()) = INT_MIN
  ∧ iterations (get gen_a (replicate (Z.to_nat 2147483648) "x"%char) 2147483648 ())
    = 2147483648
  ∧ write_indices
      (r_trace (get gen_a (replicate (Z.to_nat 2147483648) "x"%char) 2147483648 ()))
    = seqZ 0 2147483648.
Proof.
  assert (Hrand : rand_in_range (_rand gen_a) (size (_charset gen_a))).
  { intros []. unfold size. simpl. lia. }
  destruct (get_runs gen_a (replicate (Z.to_nat 2147483648) "x"%char)
              2147483648 () Hrand) as (_ & Hn & Hi);
    [lia|rewrite size_replicate; lia|].
  destruct (get_shape gen_a (replicate (Z.to_nat 2147483648) "x"%char)
              2147483648 ()) as (Hidx & _).
  split_and!; [unfold INT_MAX; lia|exact Hi|exact Hn|].
  rewrite Hidx, Hn. reflexivity.
Qed.

Lemma get_iterations_int_counter_witness :
  rand_in_range (_rand gen_ab) (size (_charset gen_ab))
  ∧ 4 ≤ size (chars "????")
  ∧ iterations (get gen_ab (chars "????") 4 0) = 4
  ∧ write_indices (r_trace (get gen_ab (chars "????") 4 0)) = [0; 1; 2; 3].
Proof.
  assert (Hrand : rand_in_range (_rand gen_ab) (size (_charset gen_ab))).
  { intros w. simpl. unfold size. simpl. apply Z.mod_pos_bound. lia. }
  assert (Hcap : 4 ≤ size (chars "????")) by (unfold size; simpl; lia).
  destruct (get_iterations_int_counter gen_ab (chars "????") 4 0 Hrand)
    as (_ & Hn & Hidx & _); [lia|exact Hcap|].
  split_and!; [exact Hrand|exact Hcap|exact Hn|exact Hidx].
Defined.

(** ** Construction *)

Section Construction.
Context {W : Type} {TChar : Type} `{CharT TChar}.

Lemma basic_string_range_all (mem : list TChar) :
  basic_string_range mem 0 (0 + length mem) = mem.
Proof. unfold basic_string_range. simpl. rewrite Nat.sub_0_r. apply firstn_all. Qed.

Lemma basic_string_cstr_terminated (s rest : list TChar) :
  Forall (λ c, c ≠ null) s → basic_string_cstr (s ++ null :: rest) = Some s.
Proof.
  induction 1 as [|c s Hc _ IH]; simpl.
  - by rewrite decide_True.
  - rewrite decide_False by done. by rewrite IH.
Qed.

Lemma basic_string_cstr_unterminated (mem : list TChar) :
  null ∉ mem → basic_string_cstr mem = None.
Proof.
  induction mem as [|c mem IH]; intros Hnot; simpl; [done|].
  rewrite decide_False by (intros ->; apply Hnot; left).
  rewrite IH; [done|]. intros Hin. apply Hnot. by right.
Qed.

(** The bodies of the array and container constructors take every element. *)
Lemma ctor_array_charset (SPEEDUP : Z) (a : list TChar)
    (seed : W → W) (rand : Z → W → Z * W) (p : Process W) :
  ctor_array SPEEDUP a seed rand p = ctor_string SPEEDUP a seed rand p
  ∧ ctor_container SPEEDUP a seed rand p = ctor_string SPEEDUP a seed rand p.
Proof. unfold ctor_array, ctor_container. by rewrite !basic_string_range_all. Qed.

(** A const array that holds a terminator is read up to it. *)
Lemma charset_from_const_array_terminated (SPEEDUP : Z) (s rest : list TChar)
    (seed : W → W) (rand : Z → W → Z * W) (p : Process W) :
  Forall (λ c, c ≠ null) s →
  charset_from SPEEDUP (ArgConstArray (s ++ null :: rest)) seed rand p = Some s.
Proof.
  intros Hs. unfold charset_from, construct_from, ctor_cstr.
  by rewrite basic_string_cstr_terminated.
Qed.

(** A const array that holds no terminator is read past its end. *)
Lemma construct_from_const_array_unterminated (SPEEDUP : Z) (a : list TChar)
    (seed : W → W) (rand : Z → W → Z * W) (p : Process W) :
  null ∉ a → construct_from SPEEDUP (ArgConstArray a) seed rand p = None.
Proof.
  intros Ha. unfold construct_from, ctor_cstr.
  by rewrite basic_string_cstr_unterminated.
Qed.

(** A container, a non-const array and a pointer to terminated data. *)
Lemma charset_from_other_forms (SPEEDUP : Z) (s rest : list TChar)
    (seed : W → W) (rand : Z → W → Z * W) (p : Process W) :
  Forall (λ c, c ≠ null) s →
  charset_from SPEEDUP (ArgContainer s) seed rand p = Some s
  ∧ charset_from SPEEDUP (ArgArray s) seed rand p = Some s
  ∧ charset_from SPEEDUP (ArgArray (s ++ [null])) seed rand p = Some (s ++ [null])
  ∧ charset_from SPEEDUP (ArgPointer (s ++ null :: rest)) seed rand p = Some s.
Proof.
  intros Hs. unfold charset_from, construct_from.
  destruct (ctor_array_charset SPEEDUP s seed rand p) as [-> ->].
  destruct (ctor_array_charset SPEEDUP (s ++ [null]) seed rand p) as [-> _].
  unfold ctor_cstr. by rewrite basic_string_cstr_terminated.
Qed.
End Construction.

(** ** One-time seeding *)

Section AutoSeed.
Context {W : Type}.
Implicit Types (c : Construction W) (p : Process W).

Lemma construct_disabled SPEEDUP c p : SPEEDUP ≠ 0 → construct SPEEDUP c p = p.
Proof. intros Hne. destruct c. simpl. by rewrite decide_False. Qed.

Lemma construct_flag_set c p :
  once_flag p (kind_of c) = true → construct 0 c p = p.
Proof. intros Hflag. destruct c. simpl in *. unfold call_once. by rewrite Hflag. Qed.

Lemma construct_flag_clear c p :
  once_flag p (kind_of c) = false →
  seed_calls (construct 0 c p) = S (seed_calls p)
  ∧ world (construct 0 c p) = seed_of c (world p)
  ∧ once_flag (construct 0 c p) (kind_of c) = true.
Proof.
  intros Hflag. destruct c. simpl in *. unfold call_once. rewrite Hflag. simpl.
  by rewrite decide_True.
Qed.

Lemma construct_all_disabled SPEEDUP cs p :
  SPEEDUP ≠ 0 → construct_all SPEEDUP cs p = p.
Proof.
  intros Hne. revert p. induction cs as [|c cs IH]; intros p; simpl; [done|].
  by rewrite construct_disabled, IH.
Qed.

Lemma construct_all_flag_set k cs p :
  Forall (λ c, kind_of c = k) cs → once_flag p k = true →
  construct_all 0 cs p = p.
Proof.
  intros Hcs Hflag. revert p Hflag.
  induction Hcs as [|c cs Hc _ IH]; intros p Hflag; simpl; [done|].
  rewrite construct_flag_set by (by rewrite Hc). by apply IH.
Qed.

(** C2 (amended): with the switch at its default 0, the first construction of
    a generator of a symbol type runs the seed strategy of that generator,
    once, and any number of later constructions of generators of the same
    symbol type run no seed strategy; with the switch set, constructions
    of any symbol types run none. *)
Theorem auto_seed_once_per_symbol_type (SPEEDUP : Z) c cs p :
  once_flag p (kind_of c) = false →
  Forall (λ c', kind_of c' = kind_of c) cs →
  if decide (SPEEDUP = 0) then
    seed_calls (construct SPEEDUP c p) = S (seed_calls p)
    ∧ world (construct SPEEDUP c p) = seed_of c (world p)
    ∧ seed_calls (construct_all SPEEDUP (c :: cs) p) = S (seed_calls p)
    ∧ world (construct_all SPEEDUP (c :: cs) p) = seed_of c (world p)
  else
    seed_calls (construct_all SPEEDUP (c :: cs) p) = seed_calls p
    ∧ world (construct_all SPEEDUP (c :: cs) p) = world p.
Proof.
  intros Hflag Hcs. case_decide as Hsw.
  - subst SPEEDUP.
    destruct (construct_flag_clear c p Hflag) as (Hn & Hw & Hset).
    simpl. rewrite (construct_all_flag_set (kind_of c)) by done. done.
  - by rewrite construct_all_disabled.
Qed.
End AutoSeed.

(** C2, as stated, fails: the constructions of [main], five generators over
    [char] and one over [wchar_t], run the seed strategy twice, on the first
    and on the sixth construction. *)
Lemma auto_seed_twice_in_main :
  seed_calls (construct_all SPEEDUP_GENERATOR_BY_DEDICATED_CALL_OF_SEED_RANDOM
                (take 1 main_constructions) (fresh_process 0%nat)) = 1%nat
  ∧ seed_calls (construct_all SPEEDUP_GENERATOR_BY_DEDICATED_CALL_OF_SEED_RANDOM
                  (take 5 main_constructions) (fresh_process 0%nat)) = 1%nat
  ∧ seed_calls (construct_all SPEEDUP_GENERATOR_BY_DEDICATED_CALL_OF_SEED_RANDOM
                  main_constructions (fresh_process 0%nat)) = 2%nat.
Proof. split_and!; reflexivity. Qed.

Lemma auto_seed_once_per_symbol_type_witness :
  Forall (λ c', kind_of c' = K_char) (take 4 (drop 1 main_constructions))
  ∧ seed_calls (construct_all 0 (take 5 main_constructions) (fresh_process 0%nat)) = 1%nat
  ∧ world (construct_all 0 (take 5 main_constructions) (fresh_process 0%nat)) = 1%nat.
Proof.
  assert (Hkinds : Forall (λ c' : Construction nat, kind_of c' = K_char)
                     (take 4 (drop 1 main_constructions))).
  { repeat constructor. }
  pose proof (auto_seed_once_per_symbol_type 0
    (Construct (chars "0123456789abcdefghijklmnopqrstuvwxyz") seed_count rand_zero)
    (take 4 (drop 1 main_constructions)) (fresh_process 0%nat) eq_refl Hkinds) as Hseed.
  simpl in Hseed. destruct Hseed as (_ & _ & Hn & Hw).
  split_and!; [exact Hkinds|exact Hn|exact Hw].
Defined.

Lemma main_charset_no_null : Forall (λ c, c ≠ null) main_charset.
Proof. repeat constructor; discriminate. Qed.

(** C3: the const array of the third block of [main] holds the 36 symbols
    that a container and null-terminated data give as charset, but the call
    that constructs from it runs the pointer constructor and reads past the
    end of the array; and a const array that also holds the terminator gives
    the 36 symbols without it, not the 37 elements of the array. *)
Theorem const_array_unlike_container :
  construct_from SPEEDUP_GENERATOR_BY_DEDICATED_CALL_OF_SEED_RANDOM
    main_array_chars seed_count rand_zero (fresh_process 0%nat) = None
  ∧ charset_from SPEEDUP_GENERATOR_BY_DEDICATED_CALL_OF_SEED_RANDOM
      (ArgContainer main_charset) seed_count rand_zero (fresh_process 0%nat)
    = Some main_charset
  ∧ charset_from SPEEDUP_GENERATOR_BY_DEDICATED_CALL_OF_SEED_RANDOM
      (ArgPointer (main_charset ++ [null])) seed_count rand_zero (fresh_process 0%nat)
    = Some main_charset
  ∧ charset_from SPEEDUP_GENERATOR_BY_DEDICATED_CALL_OF_SEED_RANDOM
      (ArgConstArray (main_charset ++ [null])) seed_count rand_zero
      (fresh_process 0%nat)
    = Some main_charset.
Proof.
  destruct (charset_from_other_forms SPEEDUP_GENERATOR_BY_DEDICATED_CALL_OF_SEED_RANDOM
              main_charset [] seed_count rand_zero (fresh_process 0%nat)
              main_charset_no_null) as (Hc & _ & _ & Hp).
  split_and!; [|exact Hc|exact Hp|].
  - apply construct_from_const_array_unterminated.
    intros Hin. pose proof main_charset_no_null as Hall.
    rewrite Forall_forall in Hall. apply list_elem_of_In in Hin. by apply (Hall null).
  - by apply charset_from_const_array_terminated, main_charset_no_null.
Qed.

(** C4: the const array of the second block of [main], initialised from a
    literal, has 37 elements, but the charset constructed from it has the 36
    symbols before the terminator: the terminator is not part of it, and no
    index the strategy may return for the bound 36 reads it. *)
Theorem const_array_literal_without_terminator :
  size (main_charset ++ [null]) = 37
  ∧ charset_from SPEEDUP_GENERATOR_BY_DEDICATED_CALL_OF_SEED_RANDOM
      main_array_literal seed_count rand_zero (fresh_process 0%nat)
    = Some main_charset
  ∧ size main_charset = 36
  ∧ (null ∉ main_charset)
  ∧ Forall (λ idx, ∃ c, basic_string_at main_charset idx = Some c ∧ c ≠ null)
           (seqZ 0 36).
Proof.
  split_and!; [reflexivity| |reflexivity| |].
  - by apply charset_from_const_array_terminated, main_charset_no_null.
  - intros Hin. pose proof main_charset_no_null as Hall.
    rewrite Forall_forall in Hall. apply list_elem_of_In in Hin. by apply (Hall null).
  - apply Forall_forall. intros idx Hidx.
    apply list_elem_of_In, elem_of_seqZ in Hidx.
    destruct (basic_string_at_in_range main_charset idx) as (c & Hc & Hin);
      [exact Hidx|].
    exists c. split; [exact Hc|].
    pose proof main_charset_no_null as Hall.
    rewrite Forall_forall in Hall. apply Hall. by apply list_elem_of_In.
Qed.

(** * Further properties of the code *)

(** ** Stores and calls of [get] *)

Section Stores.
Context {W : Type} {TChar : Type} `{CharT TChar}.
Implicit Types (g : RandomStringGeneratorBase W TChar) (out : list TChar) (w : W).

Lemma basic_string_at_Some (s : list TChar) pos c :
  basic_string_at s pos = Some c → c ∈ s ∨ c = null.
Proof.
  unfold basic_string_at. case_decide as Hpos.
  - intros Hc. left. by eapply list_elem_of_lookup_2.
  - case_decide; [|done]. intros [= <-]. by right.
Qed.

(** The loop calls the strategy once per store, once more when the run
    becomes undefined, and never more often than [outSize]. *)
Lemma get_loop_counts fuel g outSize k out w :
  0 ≤ k ≤ 2147483648 →
  let r := get_loop fuel g outSize (wrap_int k) out w in
  size (written (r_trace r)) ≤ size (rand_bounds (r_trace r))
  ∧ size (rand_bounds (r_trace r)) ≤ size (written (r_trace r)) + 1
  ∧ (r_status r = Returned →
     size (rand_bounds (r_trace r)) = size (written (r_trace r)))
  ∧ k + size (rand_bounds (r_trace r)) ≤ Z.max k outSize.
Proof.
  revert k out w. induction fuel as [|fuel IH]; intros k out w Hk; simpl.
  - unfold size; simpl. split_and!; [lia|lia|done|lia].
  - case_decide as Hcond; [|unfold size; simpl; split_and!; [lia|lia|done|lia]].
    assert (Hroom : k + 1 ≤ outSize).
    { destruct (decide (k = 2147483648)) as [->|Hne].
      - rewrite counter_top in Hcond. lia.
      - rewrite counter_below in Hcond by lia. lia. }
    destruct (_rand g (size (_charset g)) w) as [idx w'].
    destruct (basic_string_at (_charset g) idx) as [c|];
      [|unfold size; simpl; split_and!; [lia|lia|done|lia]].
    case_decide as Hi; [|unfold size; simpl; split_and!; [lia|lia|done|lia]].
    destruct (store_counter k out Hk Hi) as [Hlt Hwrap].
    rewrite Hwrap.
    destruct (IH (k + 1) (<[Z.to_nat k:=c]> out) w' ltac:(lia))
      as (Hle & Hge & Hret & Hmax).
    set (r := get_loop fuel g outSize (wrap_int (k + 1)) _ w') in *.
    rewrite written_emit_iter.
    change (rand_bounds (r_trace (emit _ r)))
      with (size (_charset g) :: rand_bounds (r_trace r)).
    change (r_status (emit _ r)) with (r_status r).
    unfold size in *. simpl length. split_and!; [lia|lia| |lia].
    intros Hst. specialize (Hret Hst). lia.
Qed.

(** X1: whatever the strategy, the buffer and the requested length, [get]
    stops by itself, stores only at [out[0]], [out[1]], ... below both
    [outSize] and the end of the buffer, keeps the length of the buffer and
    everything behind the last store, and calls the strategy once per store
    (once more if the run becomes undefined), at most [outSize] times. *)
Theorem get_stores_in_bounds g out outSize w :
  r_status (get g out outSize w) ≠ OutOfFuel
  ∧ write_indices (r_trace (get g out outSize w))
    = seqZ 0 (iterations (get g out outSize w))
  ∧ iterations (get g out outSize w) ≤ Z.max 0 outSize
  ∧ iterations (get g out outSize w) ≤ size out
  ∧ length (r_out (get g out outSize w)) = length out
  ∧ drop (Z.to_nat (iterations (get g out outSize w))) (r_out (get g out outSize w))
    = drop (Z.to_nat (iterations (get g out outSize w))) out
  ∧ iterations (get g out outSize w)
    ≤ size (rand_bounds (r_trace (get g out outSize w)))
    ≤ iterations (get g out outSize w) + 1
  ∧ size (rand_bounds (r_trace (get g out outSize w))) ≤ Z.max 0 outSize.
Proof.
  destruct (get_shape g out outSize w) as (Hidx & Hout & _ & Hcap).
  pose proof (get_loop_counts (S (Z.to_nat outSize)) g outSize 0 out w) as Hcounts.
  change (wrap_int 0) with 0 in Hcounts. fold (get g out outSize w) in Hcounts.
  destruct Hcounts as (Hle & Hge & _ & Hmax); [lia|].
  assert (Hn : iterations (get g out outSize w)
               = size (written (r_trace (get g out outSize w)))).
  { unfold iterations. by rewrite size_written_indices. }
  split_and!.
  - apply get_terminates.
  - done.
  - lia.
  - done.
  - apply get_length.
  - rewrite Hout at 1. rewrite Hn. unfold size. rewrite Nat2Z.id.
    by rewrite drop_app_length.
  - lia.
  - lia.
  - lia.
Qed.

Lemma get_written_elements g out outSize w :
  Forall (λ c, c ∈ _charset g ∨ c = null) (written (r_trace (get g out outSize w))).
Proof.
  unfold get. eapply Forall_impl; [|apply get_loop_written_from_rand].
  intros c [w0 Hc]. by eapply basic_string_at_Some.
Qed.

Lemma get_T_elements g outSize w :
  Forall (λ c, c ∈ _charset g ∨ c = null) (r_out (get_T g outSize w)).
Proof.
  unfold get_T.
  destruct (get_shape g (replicate (Z.to_nat outSize) null)
              (size (replicate (Z.to_nat outSize) null)) w) as (_ & -> & _).
  apply Forall_app. split; [apply get_written_elements|].
  apply Forall_drop, Forall_replicate. by right.
Qed.

Lemma basic_string_at_up_to_size (s : list TChar) pos :
  0 ≤ pos ≤ size s → is_Some (basic_string_at s pos).
Proof.
  intros Hpos. unfold basic_string_at. case_decide as Hlt.
  - apply lookup_lt_is_Some_2. unfold size in Hlt. lia.
  - rewrite decide_True by lia. done.
Qed.

(** No run is undefined while the strategy answers within [0, n], the bound
    included, and the buffer holds the request. *)
Lemma get_loop_defined fuel g outSize k out w :
  let m := Z.min outSize 2147483648 in
  (∀ w0, 0 ≤ fst (_rand g (size (_charset g)) w0) ≤ size (_charset g)) →
  0 ≤ k ≤ m → m ≤ size out → outSize ≤ 18446744071562067968 →
  (Z.to_nat (m - k) < fuel)%nat →
  let r := get_loop fuel g outSize (wrap_int k) out w in
  r_status r = Returned ∧ size (written (r_trace r)) = m - k.
Proof.
  intros m Hrand. revert k out w.
  induction fuel as [|fuel IH]; intros k out w Hk Hout Hsize Hfuel; [lia|].
  simpl. destruct (decide (k = m)) as [->|Hne].
  - rewrite decide_False; [simpl; unfold size; simpl; split; [done|lia]|].
    destruct (decide (m = 2147483648)) as [Hm|Hm].
    + rewrite Hm, counter_top. lia.
    + rewrite counter_below by lia. lia.
  - rewrite counter_below by lia. rewrite decide_True by lia.
    rewrite wrap_int_small by lia.
    pose proof (Hrand w) as Hidx.
    destruct (_rand g (size (_charset g)) w) as [idx w']. simpl in Hidx.
    destruct (basic_string_at_up_to_size _ _ Hidx) as [c ->].
    rewrite decide_True by lia. rewrite written_emit_iter.
    change (r_status (emit _ ?r)) with (r_status r).
    destruct (IH (k + 1) (<[Z.to_nat k:=c]> out) w') as (Hst & Hn);
      [lia|unfold size in *; rewrite length_insert; lia|lia|lia|].
    split; [done|]. unfold size in *. simpl. lia.
Qed.

(** X3: a strategy that answers within [0, n] with the bound [n] itself
    allowed never makes [get] undefined on a buffer that holds the request:
    for up to 2^31 requested symbols the call returns after [outSize] stores
    (the symbol read at index [n] being the default symbol). *)
Theorem get_defined_up_to_size g out outSize w :
  (∀ w0, 0 ≤ fst (_rand g (size (_charset g)) w0) ≤ size (_charset g)) →
  0 ≤ outSize ≤ 2147483648 → outSize ≤ size out →
  r_status (get g out outSize w) = Returned
  ∧ iterations (get g out outSize w) = outSize.
Proof.
  intros Hrand HL Hout.
  pose proof (get_loop_defined (S (Z.to_nat outSize)) g outSize 0 out w Hrand) as Hrun.
  change (wrap_int 0) with 0 in Hrun. fold (get g out outSize w) in Hrun.
  destruct Hrun as (Hst & Hn); [lia..|].
  split; [done|]. unfold iterations. rewrite size_written_indices. lia.
Qed.

(** X4: on an empty charset the strategy is called with the bound 0; if it
    answers 0, [get<T>] returns, and what it returns is the default symbol
    [outSize] times. *)
Theorem get_T_empty_charset g outSize w :
  _charset g = [] → (∀ w0, fst (_rand g 0 w0) = 0) →
  0 ≤ outSize ≤ 18446744071562067968 →
  r_status (get_T g outSize w) = Returned
  ∧ r_out (get_T g outSize w) = replicate (Z.to_nat outSize) null
  ∧ Forall (λ n, n = 0) (rand_bounds (r_trace (get_T g outSize w))).
Proof.
  intros Hempty Hzero HL.
  assert (Hsz : size (_charset g) = 0) by (by rewrite Hempty).
  split_and!.
  - rewrite get_T_unfold by lia.
    pose proof (get_loop_defined (S (Z.to_nat outSize)) g outSize 0
                  (replicate (Z.to_nat outSize) null) w) as Hrun.
    change (wrap_int 0) with 0 in Hrun.
    apply Hrun; [|lia|rewrite size_replicate; lia|lia|lia].
    intros w0. rewrite Hsz, Hzero. lia.
  - pose proof (get_T_elements g outSize w) as Hall.
    assert (Hlen : length (r_out (get_T g outSize w)) = Z.to_nat outSize).
    { unfold get_T. by rewrite get_length, length_replicate. }
    rewrite <- Hlen. symmetry. apply replicate_as_Forall_2; [done|].
    eapply Forall_impl; [|exact Hall].
    intros c [Hin|Hc]; [|done].
    rewrite Hempty in Hin. by apply elem_of_nil in Hin.
  - rewrite <- Hsz. apply get_loop_rand_bounds.
Qed.

(** A buffer shorter than the request: the store behind its end is reached. *)
Lemma get_loop_overrun fuel g outSize k out w :
  rand_in_range (_rand g) (size (_charset g)) →
  0 ≤ k ≤ size out → size out < 2147483648 → size out < outSize →
  (Z.to_nat (size out - k) < fuel)%nat →
  let r := get_loop fuel g outSize (wrap_int k) out w in
  r_status r = UB ∧ size (written (r_trace r)) = size out - k.
Proof.
  intros Hrand. revert k out w.
  induction fuel as [|fuel IH]; intros k out w Hk Hcap Hshort Hfuel; [lia|].
  simpl. rewrite counter_below by lia. rewrite decide_True by lia.
  rewrite wrap_int_small by lia.
  pose proof (Hrand w) as Hidx.
  destruct (_rand g (size (_charset g)) w) as [idx w']. simpl in Hidx.
  destruct (basic_string_at_in_range _ _ Hidx) as (c & -> & _).
  destruct (decide (k = size out)) as [->|Hne].
  - rewrite decide_False by lia. unfold size. simpl. split; [done|lia].
  - rewrite decide_True by lia. rewrite written_emit_iter.
    change (r_status (emit _ ?r)) with (r_status r).
    assert (Hlen : size (<[Z.to_nat k:=c]> out) = size out).
    { unfold size. by rewrite length_insert. }
    destruct (IH (k + 1) (<[Z.to_nat k:=c]> out) w') as (Hst & Hn);
      [rewrite Hlen; lia..|].
    rewrite Hlen in Hn. split; [done|].
    unfold size in *. simpl. lia.
Qed.

(** X5: with an in-range strategy, a buffer of fewer symbols than requested
    (and fewer than 2^31) is filled completely and the next store, behind its
    end, makes the call undefined. *)
Theorem get_buffer_too_short g out outSize w :
  rand_in_range (_rand g) (size (_charset g)) →
  size out < outSize → size out < 2147483648 →
  r_status (get g out outSize w) = UB
  ∧ iterations (get g out outSize w) = size out.
Proof.
  intros Hrand Hshort Hcap.
  pose proof (get_loop_overrun (S (Z.to_nat outSize)) g outSize 0 out w Hrand) as Hrun.
  change (wrap_int 0) with 0 in Hrun. fold (get g out outSize w) in Hrun.
  destruct Hrun as (Hst & Hn); [unfold size; lia|done|done|unfold size in *; lia|].
  split; [done|]. unfold iterations. rewrite size_written_indices. lia.
Qed.
End Stores.

(** ** The output as a function of the strategy's results *)

Section Stream.
Context {W : Type} {TChar : Type} `{CharT TChar}.
Implicit Types (g : RandomStringGeneratorBase W TChar) (out : list TChar) (w : W).

Lemma indices_succ (rand : Z → W → Z * W) n k w :
  indices rand n (S k) w
  = (fst (rand n w) :: fst (indices rand n k (snd (rand n w))),
     snd (indices rand n k (snd (rand n w)))).
Proof.
  simpl. destruct (rand n w) as [idx w1]. simpl.
  by destruct (indices rand n k w1).
Qed.

Lemma indices_length (rand : Z → W → Z * W) n k w :
  length (fst (indices rand n k w)) = k.
Proof.
  revert w. induction k as [|k IH]; intros w; [done|].
  rewrite indices_succ. simpl. by rewrite IH.
Qed.

Lemma indices_add (rand : Z → W → Z * W) n a b w :
  fst (indices rand n (a + b) w)
  = fst (indices rand n a w) ++ fst (indices rand n b (snd (indices rand n a w)))
  ∧ snd (indices rand n (a + b) w)
    = snd (indices rand n b (snd (indices rand n a w))).
Proof.
  revert w. induction a as [|a IH]; intros w; [done|].
  rewrite Nat.add_succ_l, !indices_succ. simpl.
  destruct (IH (snd (rand n w))) as [-> ->]. done.
Qed.

(** The stores of the loop are the charset read at the successive results of
    the strategy. *)
Lemma get_loop_indices fuel g outSize k out w :
  let m := Z.min outSize 2147483648 in
  rand_in_range (_rand g) (size (_charset g)) →
  0 ≤ k ≤ m → m ≤ size out → outSize ≤ 18446744071562067968 →
  (Z.to_nat (m - k) < fuel)%nat →
  let r := get_loop fuel g outSize (wrap_int k) out w in
  let s := indices (_rand g) (size (_charset g)) (Z.to_nat (m - k)) w in
  Forall2 (λ idx c, basic_string_at (_charset g) idx = Some c)
          (fst s) (written (r_trace r))
  ∧ r_world r = snd s
  ∧ size (rand_bounds (r_trace r)) = m - k.
Proof.
  intros m Hrand. revert k out w.
  induction fuel as [|fuel IH]; intros k out w Hk Hout Hsize Hfuel; [lia|].
  simpl. destruct (decide (k = m)) as [->|Hne].
  - rewrite Z.sub_diag. rewrite decide_False.
    { simpl. unfold size. simpl. split_and!; [constructor|done|lia]. }
    destruct (decide (m = 2147483648)) as [Hm|Hm].
    + rewrite Hm, counter_top. lia.
    + rewrite counter_below by lia. lia.
  - rewrite counter_below by lia. rewrite decide_True by lia.
    rewrite wrap_int_small by lia.
    replace (Z.to_nat (m - k)) with (S (Z.to_nat (m - (k + 1)))) by lia.
    rewrite indices_succ.
    pose proof (Hrand w) as Hidx.
    destruct (_rand g (size (_charset g)) w) as [idx w']. simpl in Hidx.
    destruct (basic_string_at_in_range _ _ Hidx) as (c & Hc & _).
    rewrite Hc. rewrite decide_True by lia.
    destruct (IH (k + 1) (<[Z.to_nat k:=c]> out) w') as (Hall & Hw & Hn);
      [lia|unfold size in *; rewrite length_insert; lia|lia|lia|].
    set (r := get_loop fuel g outSize (wrap_int (k + 1)) _ w') in *.
    rewrite written_emit_iter.
    change (rand_bounds (r_trace (emit _ r)))
      with (size (_charset g) :: rand_bounds (r_trace r)).
    change (r_world (emit _ r)) with (r_world r).
    simpl. split_and!; [by constructor|done|].
    unfold size in *. simpl. lia.
Qed.

Lemma get_T_indices g outSize w :
  rand_in_range (_rand g) (size (_charset g)) →
  0 ≤ outSize ≤ 2147483648 →
  Forall2 (λ idx c, basic_string_at (_charset g) idx = Some c)
          (fst (indices (_rand g) (size (_charset g)) (Z.to_nat outSize) w))
          (r_out (get_T g outSize w))
  ∧ r_world (get_T g outSize w)
    = snd (indices (_rand g) (size (_charset g)) (Z.to_nat outSize) w)
  ∧ size (rand_bounds (r_trace (get_T g outSize w))) = outSize.
Proof.
  intros Hrand HL.
  destruct (get_T_exact_length g outSize w Hrand HL) as (_ & _ & Hout & _).
  rewrite Hout. rewrite get_T_unfold by lia.
  pose proof (get_loop_indices (S (Z.to_nat outSize)) g outSize 0
                (replicate (Z.to_nat outSize) null) w Hrand) as Hrun.
  change (wrap_int 0) with 0 in Hrun.
  fold (get g (replicate (Z.to_nat outSize) null) outSize w) in Hrun.
  rewrite Z.min_l, Z.sub_0_r in Hrun by lia.
  destruct Hrun as (Hall & Hw & Hn); [lia|rewrite size_replicate; lia|lia|lia|].
  done.
Qed.

(** X6: with an in-range strategy and up to 2^31 requested symbols, what
    [get<T>] returns is the charset read at the first [outSize] results of
    the strategy, in order; the strategy is called exactly [outSize] times
    and is left in the state after these calls. *)
Theorem get_T_reads_strategy_results g outSize w :
  rand_in_range (_rand g) (size (_charset g)) →
  0 ≤ outSize ≤ 2147483648 →
  mapM (basic_string_at (_charset g))
       (fst (indices (_rand g) (size (_charset g)) (Z.to_nat outSize) w))
  = Some (r_out (get_T g outSize w))
  ∧ r_world (get_T g outSize w)
    = snd (indices (_rand g) (size (_charset g)) (Z.to_nat outSize) w)
  ∧ size (rand_bounds (r_trace (get_T g outSize w))) = outSize.
Proof.
  intros Hrand HL.
  destruct (get_T_indices g outSize w Hrand HL) as (Hall & Hw & Hn).
  split_and!; [|exact Hw|exact Hn].
  by apply mapM_Some_2.
Qed.

(** X7: with an in-range strategy, one call of [get<T>] for [a + b] symbols
    (at most 2^31) returns what a call for [a] symbols followed by a call
    for [b] symbols return, concatenated, and leaves the strategy in the same
    state. *)
Theorem get_T_add g a b w :
  rand_in_range (_rand g) (size (_charset g)) →
  0 ≤ a → 0 ≤ b → a + b ≤ 2147483648 →
  r_out (get_T g (a + b) w)
  = r_out (get_T g a w) ++ r_out (get_T g b (r_world (get_T g a w)))
  ∧ r_world (get_T g (a + b) w) = r_world (get_T g b (r_world (get_T g a w))).
Proof.
  intros Hrand Ha Hb Hab.
  destruct (get_T_indices g (a + b) w Hrand) as (Hs & Hw & _); [lia|].
  destruct (get_T_indices g a w Hrand) as (Hsa & Hwa & _); [lia|].
  destruct (get_T_indices g b (r_world (get_T g a w)) Hrand)
    as (Hsb & Hwb & _); [lia|].
  rewrite Z2Nat.inj_add in Hs, Hw by lia.
  destruct (indices_add (_rand g) (size (_charset g)) (Z.to_nat a) (Z.to_nat b) w)
    as [Hfst Hsnd].
  rewrite Hfst in Hs. rewrite Hsnd in Hw. rewrite <- Hwa in Hs, Hw.
  split; [|by rewrite Hw, Hwb].
  pose proof (Forall2_app Hsa Hsb) as Hcat.
  assert (Hfun : ∀ (l : list Z) (k1 k2 : list TChar),
    Forall2 (λ idx c, basic_string_at (_charset g) idx = Some c) l k1 →
    Forall2 (λ idx c, basic_string_at (_charset g) idx = Some c) l k2 → k1 = k2).
  { intros l k1 k2 H1. revert k2.
    induction H1 as [|idx c l k1 Hc _ IH]; intros k2 H2.
    - by apply Forall2_nil_inv_l in H2.
    - apply Forall2_cons_inv_l in H2 as (c' & k2' & Hc' & H2 & ->).
      f_equal; [congruence|by apply IH]. }
  by eapply Hfun.
Qed.

(** X8: with a charset of one symbol and an in-range strategy, [get<T>]
    returns that symbol [outSize] times (up to 2^31). *)
Theorem get_T_single_symbol g c outSize w :
  _charset g = [c] → rand_in_range (_rand g) (size (_charset g)) →
  0 ≤ outSize ≤ 2147483648 →
  r_status (get_T g outSize w) = Returned
  ∧ r_out (get_T g outSize w) = replicate (Z.to_nat outSize) c.
Proof.
  intros Hcs Hrand HL.
  destruct (get_T_exact_length g outSize w Hrand HL) as (Hst & Hsz & _ & Hin).
  split; [done|]. symmetry. apply replicate_as_Forall_2.
  - unfold size in Hsz. lia.
  - eapply Forall_impl; [|exact Hin].
    intros c' Hc'. rewrite Hcs in Hc'. by apply list_elem_of_singleton in Hc'.
Qed.
End Stream.

(** ** Reading null-terminated data *)

Section CString.
Context {TChar : Type} `{CharT TChar}.

(** X9: the pointer constructor's read of null-terminated data is defined
    exactly when the data holds a default symbol, and then yields exactly the
    symbols before the first one: the result holds no default symbol, and
    everything from the terminator on is ignored; data without a terminator
    is read past its end. *)
Theorem basic_string_cstr_spec (mem s : list TChar) :
  (basic_string_cstr mem = Some s
   ↔ ∃ rest, mem = s ++ null :: rest ∧ Forall (λ c, c ≠ null) s)
  ∧ (basic_string_cstr mem = None ↔ null ∉ mem).
Proof.
  split.
  - split.
    + revert s. induction mem as [|c mem IH]; intros s; simpl; [done|].
      case_decide as Hc.
      * intros [= <-]. exists mem. by rewrite Hc.
      * destruct (basic_string_cstr mem) as [s'|]; [|done].
        intros [= <-]. destruct (IH s' eq_refl) as (rest & -> & Hs).
        exists rest. split; [done|by constructor].
    + intros (rest & -> & Hs). by apply basic_string_cstr_terminated.
  - induction mem as [|c mem IH]; simpl.
    + split; [intros _; apply not_elem_of_nil|done].
    + case_decide as Hc.
      * split; [done|]. intros Hnot. exfalso. apply Hnot. rewrite Hc. left.
      * destruct (basic_string_cstr mem) as [s'|].
        -- split; [done|]. intros Hnot. exfalso.
           assert (Hin : null ∉ mem) by (intros Hin; apply Hnot; by right).
           apply IH in Hin. done.
        -- split; [|done]. intros _ Hin.
           apply elem_of_cons in Hin as [Heq|Hin]; [by apply Hc|].
           by apply (proj1 IH).
Qed.
End CString.

(** ** Seeding across a process *)

Section Seeding.
Context {W : Type}.
Implicit Types (c : Construction W) (p : Process W).

Lemma construct_once_flag c p k :
  once_flag (construct 0 c p) k
  = (if decide (k = kind_of c) then true else once_flag p k).
Proof.
  destruct c. simpl. unfold call_once.
  destruct (once_flag p char_kind) eqn:Hflag; simpl.
  - case_decide; [by subst|done].
  - done.
Qed.

Lemma construct_seed_calls c p :
  seed_calls (construct 0 c p)
  = (if once_flag p (kind_of c) then seed_calls p else S (seed_calls p)).
Proof.
  destruct c. simpl. unfold call_once.
  by destruct (once_flag p char_kind).
Qed.

Lemma construct_all_seen cs p seen :
  NoDup seen → (∀ k, once_flag p k = true ↔ k ∈ seen) →
  ∃ seen', NoDup seen'
    ∧ (∀ k, once_flag (construct_all 0 cs p) k = true ↔ k ∈ seen')
    ∧ (∀ k, k ∈ seen' ↔ k ∈ seen ∨ k ∈ kind_of <$> cs)
    ∧ (seed_calls (construct_all 0 cs p) + length seen
       = seed_calls p + length seen')%nat.
Proof.
  revert p seen. induction cs as [|c cs IH]; intros p seen Hnd Hflags; simpl.
  - exists seen. split_and!; [done|done| |done].
    intros k. split; [by left|]. intros [Hk|Hk]; [done|by apply elem_of_nil in Hk].
  - destruct (once_flag p (kind_of c)) eqn:Hflag.
    + rewrite construct_flag_set by done.
      destruct (IH p seen Hnd Hflags) as (seen' & Hnd' & Hflags' & Hel & Hn).
      exists seen'. split_and!; [done|done| |done].
      intros k. rewrite Hel, elem_of_cons.
      apply Hflags in Hflag. split; [tauto|].
      intros [Hk|[->|Hk]]; tauto.
    + assert (Hfresh : kind_of c ∉ seen).
      { intros Hin. apply Hflags in Hin. congruence. }
      destruct (IH (construct 0 c p) (kind_of c :: seen))
        as (seen' & Hnd' & Hflags' & Hel & Hn).
      { by constructor. }
      { intros k. rewrite construct_once_flag, elem_of_cons.
        case_decide; [tauto|]. rewrite Hflags. tauto. }
      exists seen'. split_and!; [done|done| |].
      * intros k. rewrite Hel, !elem_of_cons. tauto.
      * rewrite construct_seed_calls, Hflag in Hn. simpl in Hn. lia.
Qed.

(** X10: in a process whose flags are clear, with the switch at 0, any
    sequence of constructions runs the seed strategy as many times as there
    are distinct symbol types among them, and afterwards the flag of a symbol
    type is set exactly when a generator of that type was constructed. *)
Theorem auto_seed_count (cs : list (Construction W)) (w0 : W) :
  seed_calls (construct_all 0 cs (fresh_process w0))
  = length (remove_dups (kind_of <$> cs))
  ∧ ∀ k, once_flag (construct_all 0 cs (fresh_process w0)) k = true
         ↔ k ∈ kind_of <$> cs.
Proof.
  destruct (construct_all_seen cs (fresh_process w0) [])
    as (seen' & Hnd & Hflags & Hel & Hn).
  { constructor. }
  { intros k. simpl. split; [done|]. intros Hk. by apply elem_of_nil in Hk. }
  assert (Hkinds : ∀ k, k ∈ seen' ↔ k ∈ kind_of <$> cs).
  { intros k. rewrite Hel. split; [|by right].
    intros [Hk|Hk]; [by apply elem_of_nil in Hk|done]. }
  split.
  - simpl in Hn. rewrite Nat.add_0_r in Hn. rewrite Hn.
    apply Permutation_length, NoDup_Permutation; [done|apply NoDup_remove_dups|].
    intros k. by rewrite Hkinds, elem_of_remove_dups.
  - intros k. by rewrite Hflags, Hkinds.
Qed.

End Seeding.

(** ** The default strategy *)

Section Default.
Context {W : Type} {TChar : Type} `{CharT TChar}.

Lemma default_rand_in_range (std_rand : W → Z * W) (n : Z) :
  0 < n → rand_in_range (default_rand std_rand) n.
Proof.
  intros Hn w. unfold default_rand. destruct (std_rand w) as [r w']. simpl.
  apply Z.mod_pos_bound. lia.
Qed.

(** X12: a generator that keeps the default random strategy and has a
    non-empty charset is never undefined on a buffer that holds the request:
    up to 2^31 requested symbols [get] stores exactly [outSize] symbols, all
    of the charset, and [get<T>] returns [outSize] symbols of the charset. *)
Theorem get_default_rand (std_rand : W → Z * W)
    (g : RandomStringGeneratorBase W TChar) out outSize w :
  _rand g = default_rand std_rand → _charset g ≠ [] →
  0 ≤ outSize ≤ 2147483648 → outSize ≤ size out →
  r_status (get g out outSize w) = Returned
  ∧ iterations (get g out outSize w) = outSize
  ∧ Forall (λ c, c ∈ _charset g) (written (r_trace (get g out outSize w)))
  ∧ r_status (get_T g outSize w) = Returned
  ∧ size (r_out (get_T g outSize w)) = outSize
  ∧ Forall (λ c, c ∈ _charset g) (r_out (get_T g outSize w)).
Proof.
  intros Hdef Hne HL Hout.
  assert (Hrand : rand_in_range (_rand g) (size (_charset g))).
  { rewrite Hdef. apply default_rand_in_range.
    unfold size. destruct (_charset g); [done|simpl; lia]. }
  destruct (get_exact_length g out outSize w Hrand HL Hout)
    as (Hst & Hn & _ & Hin & _).
  destruct (get_T_exact_length g outSize w Hrand HL) as (Hst' & Hsz & _ & Hin').
  done.
Qed.
End Default.

(** ** Instances *)

Lemma gen_ab_in_range : rand_in_range (_rand gen_ab) (size (_charset gen_ab)).
Proof. intros w. simpl. unfold size. simpl. apply Z.mod_pos_bound. lia. Qed.

Lemma gen_a_in_range : rand_in_range (_rand gen_a) (size (_charset gen_a)).
Proof. intros []. unfold size. simpl. lia. Qed.

Lemma get_defined_up_to_size_witness :
  (∀ w0 : unit, 0 ≤ fst (_rand gen_ab_bound (size (_charset gen_ab_bound)) w0)
                ≤ size (_charset gen_ab_bound))
  ∧ r_status (get gen_ab_bound (chars "??") 2 ()) = Returned
  ∧ r_out (get gen_ab_bound (chars "??") 2 ()) = [null; null].
Proof.
  assert (Hrand : ∀ w0 : unit,
    0 ≤ fst (_rand gen_ab_bound (size (_charset gen_ab_bound)) w0)
    ≤ size (_charset gen_ab_bound)).
  { intros w0. unfold size. simpl. lia. }
  destruct (get_defined_up_to_size gen_ab_bound (chars "??") 2 () Hrand) as (Hst & _);
    [lia|unfold size; simpl; lia|].
  split_and!; [exact Hrand|exact Hst|reflexivity].
Defined.

Lemma get_T_empty_charset_witness :
  _charset gen_empty = []
  ∧ r_status (get_T gen_empty 3 ()) = Returned
  ∧ r_out (get_T gen_empty 3 ()) = [null; null; null].
Proof.
  destruct (get_T_empty_charset gen_empty 3 () eq_refl) as (Hst & Hout & _);
    [done|lia|].
  split_and!; [reflexivity|exact Hst|exact Hout].
Defined.

Lemma get_buffer_too_short_witness :
  size (chars "xx") < 3
  ∧ r_status (get gen_ab (chars "xx") 3 0) = UB
  ∧ iterations (get gen_ab (chars "xx") 3 0) = 2.
Proof.
  assert (Hshort : size (chars "xx") < 3) by (unfold size; simpl; lia).
  destruct (get_buffer_too_short gen_ab (chars "xx") 3 0 gen_ab_in_range Hshort)
    as (Hst & Hn); [unfold size; simpl; lia|].
  split_and!; [exact Hshort|exact Hst|exact Hn].
Defined.

Lemma get_T_reads_strategy_results_witness :
  fst (indices rand_cycle 2 4 0) = [0; 1; 0; 1]
  ∧ mapM (basic_string_at (chars "ab")) [0; 1; 0; 1] = Some (r_out (get_T gen_ab 4 0))
  ∧ r_world (get_T gen_ab 4 0) = 4.
Proof.
  destruct (get_T_reads_strategy_results gen_ab 4 0 gen_ab_in_range) as (Hs & Hw & _);
    [lia|].
  split_and!; [reflexivity|exact Hs|exact Hw].
Defined.

Lemma get_T_add_witness :
  r_out (get_T gen_ab 3 0) = r_out (get_T gen_ab 1 0) ++ r_out (get_T gen_ab 2 1)
  ∧ r_out (get_T gen_ab 3 0) = chars "aba".
Proof.
  destruct (get_T_add gen_ab 1 2 0 gen_ab_in_range) as (Hout & _); [lia..|].
  split; [exact Hout|reflexivity].
Defined.

Lemma get_T_single_symbol_witness :
  _charset gen_a = chars "a" ∧ r_out (get_T gen_a 3 ()) = chars "aaa".
Proof.
  destruct (get_T_single_symbol gen_a "a"%char 3 () eq_refl gen_a_in_range)
    as (_ & Hout); [lia|].
  split; [reflexivity|exact Hout].
Defined.

Lemma get_default_rand_witness :
  _charset gen_abc_default ≠ []
  ∧ r_status (get_T gen_abc_default 4 1) = Returned
  ∧ Forall (λ c, c ∈ chars "abc") (r_out (get_T gen_abc_default 4 1)).
Proof.
  assert (Hne : _charset gen_abc_default ≠ []) by discriminate.
  destruct (get_default_rand lcg_rand gen_abc_default (chars "????") 4 1 eq_refl Hne)
    as (_ & _ & _ & Hst & _ & Hin); [lia|unfold size; simpl; lia|].
  split_and!; [exact Hne|exact Hst|exact Hin].
Defined.
